(** * tts-openai: slide segmentation, slide selection, merging and durations

    A shallow embedding of the pipeline logic of [tts_openai.py],
    [merge_mp3s.py] and [sum_mp3_durations.py], and the properties of it
    that the specification states.

    Conventions of the embedding.
    - A Python [str] is a [string]; every character is one code point below
      256, so the Unicode predicates the code relies on ([str.isspace],
      [\s], [\d], case folding of ASCII letters) are exact on the model.
    - A Python [int] is a [Z]; a Python [set] of ints is a [gset Z].
    - [print] appends to an output log kept in the result.
    - A Python exception that the code catches is an explicit case of the
      embedded function; one that it lets escape is a [Raise] result. *)

From Stdlib Require Import ZArith QArith Ascii String List Sorting.Sorted.
From stdpp Require Import base decidable option list gmap sets strings pretty
  sorting.
From Stdlib Require Import Lia.

Local Open Scope string_scope.
Local Open Scope Z_scope.
Local Open Scope list_scope.

(** ** Python string primitives *)

Module Py.

(** [str.isspace] on one code point below 256: TAB..CR, FS..US, space,
    NEL and NBSP. The same predicate is what [str.strip()], [int()] and the
    regular-expression class [\s] use. *)
Definition is_space (c : ascii) : bool :=
  let n := N_of_ascii c in
  ((9 <=? n) && (n <=? 13) || (28 <=? n) && (n <=? 32)
   || (n =? 133) || (n =? 160))%N.

(** Decimal digit value of a code point ([\d] and [int()] digits). *)
Definition digit_val (c : ascii) : option Z :=
  let n := N_of_ascii c in
  if ((48 <=? n) && (n <=? 57))%N then Some (Z.of_N n - 48) else None.

Definition is_digit (c : ascii) : bool := bool_decide (is_Some (digit_val c)).

(** Whitespace that [int()] skips around a literal: as [is_space], but
    without FS..US. *)
Definition is_int_space (c : ascii) : bool :=
  let n := N_of_ascii c in
  ((9 <=? n) && (n <=? 13) || (n =? 32) || (n =? 133) || (n =? 160))%N.

Fixpoint lstrip_by (p : ascii → bool) (s : string) : string :=
  match s with
  | String c s' => if p c then lstrip_by p s' else s
  | EmptyString => EmptyString
  end.

Fixpoint rstrip_by (p : ascii → bool) (s : string) : string :=
  match s with
  | String c s' =>
      match rstrip_by p s' with
      | EmptyString => if p c then EmptyString else String c EmptyString
      | r => String c r
      end
  | EmptyString => EmptyString
  end.

Definition strip_by (p : ascii → bool) (s : string) : string :=
  rstrip_by p (lstrip_by p s).

(** [s.strip()] *)
Definition strip (s : string) : string := strip_by is_space s.

(** [c in s] for a one-character [c]. *)
Fixpoint contains (c : ascii) (s : string) : bool :=
  match s with
  | String d s' => if decide (d = c) then true else contains c s'
  | EmptyString => false
  end.

(** [s.split(c)] for a one-character separator: never an empty list. *)
Fixpoint split_on (c : ascii) (s : string) : list string :=
  match s with
  | EmptyString => [EmptyString]
  | String d s' =>
      if decide (d = c) then EmptyString :: split_on c s'
      else match split_on c s' with
           | p :: ps => String d p :: ps
           | [] => [String d EmptyString]
           end
  end.

(** [s.split(c, 1)] when [c in s]: the text before and after the first [c]. *)
Fixpoint split1 (c : ascii) (s : string) : string * string :=
  match s with
  | EmptyString => (EmptyString, EmptyString)
  | String d s' =>
      if decide (d = c) then (EmptyString, s')
      else let '(a, b) := split1 c s' in (String d a, b)
  end.

(** The digit part of an [int()] literal in base 10: digits, with single
    underscores allowed between two digits. [prev] tells whether the
    previous character was a digit. *)
Fixpoint int_digits (acc : Z) (prev : bool) (s : string) : option Z :=
  match s with
  | EmptyString => if prev then Some acc else None
  | String c s' =>
      match digit_val c with
      | Some d => int_digits (10 * acc + d) true s'
      | None =>
          if decide (c = "_"%char) then
            if prev then int_digits acc false s' else None
          else None
      end
  end.

(** [int(s)]: surrounding whitespace is ignored, then an optional sign and
    the digits. [None] is [ValueError]. The interpreter's configurable limit
    on the number of digits is not modelled. *)
Definition int_of_string (s : string) : option Z :=
  match strip_by is_int_space s with
  | String "+" d => int_digits 0 false d
  | String "-" d => Z.opp <$> int_digits 0 false d
  | d => int_digits 0 false d
  end.

(** [str(i)] for an int. *)
Definition str (i : Z) : string := pretty i.

(** [sep.join(l)] *)
Fixpoint join (sep : string) (l : list string) : string :=
  match l with
  | [] => EmptyString
  | [x] => x
  | x :: rest => x +:+ sep +:+ join sep rest
  end.

(** [range(a, b + 1)] as a list. *)
Definition range_incl (a b : Z) : list Z := seqZ a (b - a + 1).

(** [set(range(1, total + 1))] *)
Definition all_indices (total : Z) : gset Z := list_to_set (range_incl 1 total).


(** Every character of [s] satisfies [p]. *)
Fixpoint all_chars (p : ascii → bool) (s : string) : bool :=
  match s with
  | String c s' => p c && all_chars p s'
  | EmptyString => true
  end.

Fixpoint last_char (s : string) : option ascii :=
  match s with
  | String c EmptyString => Some c
  | String _ s' => last_char s'
  | EmptyString => None
  end.

(** The number a string of digits denotes, after the digits [acc]. *)
Fixpoint digits_value (acc : Z) (s : string) : Z :=
  match s with
  | String c s' => digits_value (10 * acc + default 0 (digit_val c)) s'
  | EmptyString => acc
  end.

(** [s[i]] for a list, with Python's negative indices; [None] is
    [IndexError]. *)
Definition index {A} (l : list A) (i : Z) : option A :=
  let n := Z.of_nat (length l) in
  if (0 <=? i) && (i <? n) then l !! Z.to_nat i
  else if (- n <=? i) && (i <? 0) then l !! Z.to_nat (n + i)
  else None.

(** A stable sort by a comparison [leb], as [sorted] and [list.sort] are. *)
Fixpoint insert_sorted {A} (leb : A → A → bool) (x : A) (l : list A) : list A :=
  match l with
  | [] => [x]
  | y :: l' => if leb x y then x :: l else y :: insert_sorted leb x l'
  end.

Definition sorted {A} (leb : A → A → bool) (l : list A) : list A :=
  foldr (insert_sorted leb) [] l.

(** [f"{i:02d}"] *)
Definition fmt_02d (i : Z) : string :=
  let s := str i in
  if (String.length s <? 2)%nat then String "0" s else s.

(** Slices of a string. *)
Fixpoint drop_str (n : nat) (s : string) : string :=
  match n, s with
  | S n', String _ s' => drop_str n' s'
  | _, _ => s
  end.

Fixpoint take_str (n : nat) (s : string) : string :=
  match n, s with
  | S n', String c s' => String c (take_str n' s')
  | _, _ => EmptyString
  end.

(** [s[a:b]] for [0 <= a] and [0 <= b]. *)
Definition slice (s : string) (a b : nat) : string :=
  take_str (b - a) (drop_str a s).

(** [f"{i:0{width}d}"]: zeros between the sign and the digits, up to
    [width] characters. *)
Fixpoint zeros (n : nat) : string :=
  match n with
  | O => EmptyString
  | S n' => String "0" (zeros n')
  end.

Definition fmt_0d (width : nat) (i : Z) : string :=
  let digits := str (Z.abs i) in
  let sign := if i <? 0 then "-" else EmptyString in
  sign +:+ zeros (width - String.length sign - String.length digits)
  +:+ digits.

(** [Path(s)] on a POSIX system: the root and the parts after it. Exactly
    two leading slashes are a root of their own; empty components and [.]
    are dropped, [..] is kept. *)
Definition path_root (s : string) : string :=
  match s with
  | String "/" (String "/" (String "/" _)) => "/"
  | String "/" (String "/" _) => "//"
  | String "/" _ => "/"
  | _ => EmptyString
  end.

Definition path_parts (s : string) : list string :=
  filter (λ c, c ≠ EmptyString ∧ c ≠ ".") (split_on "/" s).

(** [str(Path(s) / name)] for a [name] that is one component: not empty,
    not [.], without a slash. *)
Definition path_join (s name : string) : string :=
  path_root s +:+ join "/" (path_parts s ++ [name]).

End Py.

(** ** Results of code that may let an exception escape *)

(** The exceptions that escape. [ResolveError] is the exception a
    [Path.resolve()] raised, whichever its class is ([OSError], or
    [RuntimeError] for a loop of symbolic links). *)
Inductive exn :=
  | TypeError
  | IndexError
  | ResolveError
  | ValueError
  | OverflowError.

Inductive result (A : Type) :=
  | Ok (a : A)
  | Raise (e : exn).
Arguments Ok {A} a.
Arguments Raise {A} e.

(** ** Slide selection: the parser state shared by both parsers *)

(** The two accumulators of the token loop. *)
Record pstate := PState {
  selected : gset Z;
  invalid_tokens : list string
}.

Definition pstate_init : pstate := PState ∅ [].

Definition select (i : Z) (st : pstate) : pstate :=
  PState ({[i]} ∪ selected st) (invalid_tokens st).

Definition reject (t : string) (st : pstate) : pstate :=
  PState (selected st) (invalid_tokens st ++ [t]).

(** One iteration of [for token in slides_opt.split(",")], for an index
    test [ok] ([1 <= i <= total], or [i >= 1]). *)
Definition scan_token (ok : Z → bool) (st : pstate) (raw : string) : pstate :=
  let token := Py.strip raw in
  if decide (token = EmptyString) then st
  else if Py.contains "-" token then
    let '(start_s, end_s) := Py.split1 "-" token in
    match Py.int_of_string (Py.strip start_s) with
    | None => reject token st
    | Some start =>
        match Py.int_of_string (Py.strip end_s) with
        | None => reject token st
        | Some end_ =>
            let '(start, end_) :=
              if end_ <? start then (end_, start) else (start, end_) in
            foldl (λ st i, if ok i then select i st else reject (Py.str i) st)
                  st (Py.range_incl start end_)
        end
    end
  else
    match Py.int_of_string token with
    | Some idx => if ok idx then select idx st else reject token st
    | None => reject token st
    end.

Definition scan (ok : Z → bool) (slides_opt : string) : pstate :=
  foldl (scan_token ok) pstate_init (Py.split_on "," slides_opt).

(** The range token "A-B" of two integers. *)
Definition range_token (a b : Z) : string :=
  Py.str a +:+ "-" +:+ Py.str b.

(** ** Regular expressions, as far as the three patterns of the code go *)

Module Re.

(** A character class: a literal, [\s], [\d] or [.]. *)
Inductive cls := CLit (c : ascii) | CSpace | CDigit | CDot.

(** A pattern is a sequence of atoms: [^], [$], one character of a class,
    and the greedy repetitions [k*] and [k+] of a class. *)
Inductive atom := Bol | Eol | One (k : cls) | Star (k : cls) | Plus (k : cls).

(** The flags [(?i)] and [(?m)]. *)
Record flags := Flags { icase : bool; multiline : bool }.

Definition nl : ascii := "010"%char.

(** Lower case of an ASCII letter; other code points are unchanged. *)
Definition lower (c : ascii) : ascii :=
  let n := N_of_ascii c in
  if ((65 <=? n) && (n <=? 90))%N then ascii_of_N (n + 32) else c.

Fixpoint lower_str (s : string) : string :=
  match s with
  | String c s' => String (lower c) (lower_str s')
  | EmptyString => EmptyString
  end.

Definition cls_match (f : flags) (k : cls) (c : ascii) : bool :=
  match k with
  | CLit l => if icase f then bool_decide (lower c = lower l)
              else bool_decide (c = l)
  | CSpace => Py.is_space c
  | CDigit => Py.is_digit c
  | CDot => negb (bool_decide (c = nl))
  end.

(** [^]: at the start of the string, and with [(?m)] also right after a
    newline. [prev] is the character before the current position. *)
Definition at_bol (f : flags) (prev : option ascii) : bool :=
  match prev with
  | None => true
  | Some c => multiline f && bool_decide (c = nl)
  end.

(** [$]: at the end of the string and before a newline that ends the
    string; with [(?m)] before every newline. *)
Definition at_eol (f : flags) (s : string) : bool :=
  match s with
  | EmptyString => true
  | String c s' =>
      bool_decide (c = nl) && (multiline f || bool_decide (s' = EmptyString))
  end.

(** The result of a match: the text consumed by each atom, in order. *)
Definition grow (c : ascii) (pieces : list string) : list string :=
  match pieces with
  | p :: ps => String c p :: ps
  | [] => [String c EmptyString]
  end.

(** Greedy [k*] followed by the continuation [cont]: take one more
    character when the rest then matches, otherwise stop here. *)
Fixpoint m_star (f : flags) (k : cls)
    (cont : option ascii → string → option (list string))
    (prev : option ascii) (s : string) : option (list string) :=
  match s with
  | String c s' =>
      if cls_match f k c then
        match m_star f k cont (Some c) s' with
        | Some r => Some (grow c r)
        | None => cons EmptyString <$> cont prev s
        end
      else cons EmptyString <$> cont prev s
  | EmptyString => cons EmptyString <$> cont prev s
  end.

(** The backtracking matcher, anchored at the current position. *)
Fixpoint m_atoms (f : flags) (atoms : list atom)
    : option ascii → string → option (list string) :=
  match atoms with
  | [] => λ _ _, Some []
  | a :: rest =>
      let cont := m_atoms f rest in
      match a with
      | Bol => λ prev s,
          if at_bol f prev then cons EmptyString <$> cont prev s else None
      | Eol => λ prev s,
          if at_eol f s then cons EmptyString <$> cont prev s else None
      | One k => λ prev s,
          match s with
          | String c s' =>
              if cls_match f k c
              then cons (String c EmptyString) <$> cont (Some c) s'
              else None
          | EmptyString => None
          end
      | Star k => m_star f k cont
      | Plus k => λ prev s,
          match s with
          | String c s' =>
              if cls_match f k c
              then grow c <$> m_star f k cont (Some c) s'
              else None
          | EmptyString => None
          end
      end
  end.

(** Number of characters a match consumed. *)
Definition span_len (pieces : list string) : nat :=
  foldr (λ p n, (String.length p + n)%nat) 0%nat pieces.

(** A compiled pattern. *)
Record regex := Regex { re_flags : flags; re_atoms : list atom }.

(** [re.match(pattern, s)]: a match at the start of [s] only. *)
Definition re_match (re : regex) (s : string) : option (list string) :=
  m_atoms (re_flags re) (re_atoms re) None s.

(** [re.finditer]: the spans [(start, end)] of the non-overlapping matches,
    leftmost first. [skip] counts the characters of the last match still to
    be passed. The patterns of the code never match the empty string, so
    the interpreter's rule for empty matches is not needed. *)
Fixpoint finditer_from (re : regex) (skip : nat) (prev : option ascii)
    (pos : nat) (s : string) : list (nat * nat) :=
  match s with
  | EmptyString =>
      match skip, m_atoms (re_flags re) (re_atoms re) prev s with
      | O, Some _ => [(pos, pos)]
      | _, _ => []
      end
  | String c s' =>
      match skip with
      | S k => finditer_from re k (Some c) (S pos) s'
      | O =>
          match m_atoms (re_flags re) (re_atoms re) prev s with
          | Some pieces =>
              let n := span_len pieces in
              (pos, (pos + n)%nat)
                :: finditer_from re (Nat.pred n) (Some c) (S pos) s'
          | None => finditer_from re 0 (Some c) (S pos) s'
          end
      end
  end.

Definition finditer (re : regex) (text : string) : list (nat * nat) :=
  finditer_from re 0 None 0 text.

(** *** What a pattern means *)

(** The character before the position reached after [w]. *)
Definition last_or (prev : option ascii) (w : string) : option ascii :=
  match Py.last_char w with
  | Some c => Some c
  | None => prev
  end.

(** [matches f atoms prev s pieces]: the atoms match a prefix of [s], one
    piece of it each, when [prev] is the character before [s]. *)
Inductive matches (f : flags)
    : list atom → option ascii → string → list string → Prop :=
  | matches_nil prev s : matches f [] prev s []
  | matches_bol rest prev s ps :
      at_bol f prev = true → matches f rest prev s ps →
      matches f (Bol :: rest) prev s (EmptyString :: ps)
  | matches_eol rest prev s ps :
      at_eol f s = true → matches f rest prev s ps →
      matches f (Eol :: rest) prev s (EmptyString :: ps)
  | matches_one k rest prev c s ps :
      cls_match f k c = true → matches f rest (Some c) s ps →
      matches f (One k :: rest) prev (String c s) (String c EmptyString :: ps)
  | matches_star k rest prev w s ps :
      Py.all_chars (cls_match f k) w = true →
      matches f rest (last_or prev w) s ps →
      matches f (Star k :: rest) prev (w +:+ s) (w :: ps)
  | matches_plus k rest prev w s ps :
      w ≠ EmptyString → Py.all_chars (cls_match f k) w = true →
      matches f rest (last_or prev w) s ps →
      matches f (Plus k :: rest) prev (w +:+ s) (w :: ps).

(** The character before position [k] of [s], [prev] being the one before
    [s]. *)
Fixpoint prev_at (prev : option ascii) (s : string) (k : nat) : option ascii :=
  match k, s with
  | O, _ => prev
  | S k', String c s' => prev_at (Some c) s' k'
  | S _, EmptyString => None
  end.

(** The pattern matches the text from position [s] up to position [e]. *)
Definition match_at (re : regex) (text : string) (s e : nat) : Prop :=
  (s <= String.length text)%nat
  ∧ ∃ pieces, matches (re_flags re) (re_atoms re) (prev_at None text s)
                (Py.drop_str s text) pieces
              ∧ e = (s + span_len pieces)%nat.

(** [spans] are the occurrences of [P] in the order of the text, the
    leftmost first and none overlapping another: every occurrence starts
    where a span starts or inside one. *)
Definition leftmost (P : nat → nat → Prop) (spans : list (nat * nat)) : Prop :=
  (∀ s e, (s, e) ∈ spans → P s e)
  ∧ StronglySorted (λ x y : nat * nat, (x.2 <= y.1)%nat ∧ (x.1 < y.1)%nat) spans
  ∧ ∀ p e, P p e →
      ∃ s e', (s, e') ∈ spans ∧ (s <= p)%nat ∧ (p = s ∨ (p < e')%nat).

(** [re.split(pattern, text)] for a pattern without groups: the text
    between consecutive matches. *)
Fixpoint split_at (text : string) (last : nat) (spans : list (nat * nat))
    : list string :=
  match spans with
  | [] => [Py.slice text last (String.length text)]
  | (s, e) :: rest => Py.slice text last s :: split_at text e rest
  end.

Definition split (re : regex) (text : string) : list string :=
  split_at text 0 (finditer re text).

(** The literal characters of a pattern. *)
Fixpoint lits (s : string) : list atom :=
  match s with
  | EmptyString => []
  | String c s' => One (CLit c) :: lits s'
  end.

End Re.

(** ** tts_openai.py *)

Module Tts.

(** [re.compile(r'(?im)^\s*Slide\s+\d+\s*:.*$')] *)
Definition header_re : Re.regex :=
  Re.Regex (Re.Flags true true)
    ([Re.Bol; Re.Star Re.CSpace] ++ Re.lits "Slide"
     ++ [Re.Plus Re.CSpace; Re.Plus Re.CDigit; Re.Star Re.CSpace;
         Re.One (Re.CLit ":"); Re.Star Re.CDot; Re.Eol]).

(** [r'(?m)^\s*---\s*$'] *)
Definition sep_re : Re.regex :=
  Re.Regex (Re.Flags false true)
    ([Re.Bol; Re.Star Re.CSpace] ++ Re.lits "---"
     ++ [Re.Star Re.CSpace; Re.Eol]).

(** The body of the loop over [enumerate(headers)]; a header is the span
    [(m.start(), m.end())] of its match. *)
Definition header_slide (text : string) (headers : list (nat * nat))
    (idx : nat) (m : nat * nat) : string :=
  let start := m.2 in
  let end_ := match headers !! S idx with
              | Some m' => m'.1
              | None => String.length text
              end in
  Py.strip (Py.slice text start end_).

(** [split_text_by_slides(text)] *)
Definition split_text_by_slides (text : string) : list string :=
  let headers := Re.finditer header_re text in
  match headers with
  | _ :: _ => imap (header_slide text headers) headers
  | [] =>
      let parts := Re.split sep_re text in
      filter (λ p, p ≠ EmptyString) (Py.strip <$> parts)
  end.

(** *** Headers and separators in words *)

(** Position [s] of the text is the start of a line. *)
Definition line_start (text : string) (s : nat) : Prop :=
  match Re.prev_at None text s with
  | None => True
  | Some c => c = Re.nl
  end.

(** The line ends where [rest] begins. *)
Definition line_end (rest : string) : Prop :=
  rest = EmptyString ∨ ∃ r, rest = String Re.nl r.

(** A header as the code takes it, from position [s] up to position [e]:
    at the start of a line optional whitespace, the word Slide in any case,
    whitespace, digits, optional whitespace, a colon and the rest of the
    line. *)
Definition header_at (text : string) (s e : nat) : Prop :=
  (s <= String.length text)%nat ∧ line_start text s
  ∧ ∃ sp1 word sp2 digits sp3 tail rest,
      Py.drop_str s text
      = sp1 +:+ word +:+ sp2 +:+ digits +:+ sp3 +:+ ":" +:+ tail +:+ rest
      ∧ Py.all_chars Py.is_space sp1 = true
      ∧ Re.lower_str word = "slide"
      ∧ Py.all_chars Py.is_space sp2 = true ∧ sp2 ≠ EmptyString
      ∧ Py.all_chars Py.is_digit digits = true ∧ digits ≠ EmptyString
      ∧ Py.all_chars Py.is_space sp3 = true
      ∧ Py.contains Re.nl tail = false
      ∧ line_end rest
      ∧ e = (s + String.length
                   (sp1 +:+ word +:+ sp2 +:+ digits +:+ sp3 +:+ ":" +:+ tail))%nat.

(** A header as the claim words it: optional whitespace, Slide, digits, a
    colon and the rest of the line. *)
Definition stated_header_at (text : string) (s e : nat) : Prop :=
  (s <= String.length text)%nat ∧ line_start text s
  ∧ ∃ sp1 word digits tail rest,
      Py.drop_str s text = sp1 +:+ word +:+ digits +:+ ":" +:+ tail +:+ rest
      ∧ Py.all_chars Py.is_space sp1 = true
      ∧ Re.lower_str word = "slide"
      ∧ Py.all_chars Py.is_digit digits = true ∧ digits ≠ EmptyString
      ∧ Py.contains Re.nl tail = false
      ∧ line_end rest
      ∧ e = (s + String.length (sp1 +:+ word +:+ digits +:+ ":" +:+ tail))%nat.

(** A separator: a line of three dashes with only whitespace around. *)
Definition separator_at (text : string) (s e : nat) : Prop :=
  (s <= String.length text)%nat ∧ line_start text s
  ∧ ∃ sp1 sp2 rest,
      Py.drop_str s text = sp1 +:+ "---" +:+ sp2 +:+ rest
      ∧ Py.all_chars Py.is_space sp1 = true
      ∧ Py.all_chars Py.is_space sp2 = true
      ∧ line_end rest
      ∧ e = (s + String.length (sp1 +:+ "---" +:+ sp2))%nat.

(** The start of the [i]-th span, or the end of the text when there is
    none. *)
Definition span_start (text : string) (spans : list (nat * nat)) (i : nat)
    : nat :=
  match spans !! i with
  | Some m => m.1
  | None => String.length text
  end.

(** The end of the span before the [i]-th one, or the start of the text. *)
Definition prev_end (spans : list (nat * nat)) (i : nat) : nat :=
  match i with
  | O => O
  | S j => match spans !! j with
           | Some m => m.2
           | None => O
           end
  end.

(** What [_parse_slides_option] prints. *)
Inductive diag :=
  | WarnNoneSelected
  | WarnInvalid (tokens : list string).

Definition in_bounds (total i : Z) : bool := (1 <=? i) && (i <=? total).

(** [_parse_slides_option(slides_opt, total)]: the set returned and the
    lines printed. [None] and the empty string are both falsy. *)
Definition _parse_slides_option (slides_opt : option string) (total : Z)
  : gset Z * list diag :=
  match slides_opt with
  | None | Some EmptyString => (Py.all_indices total, [])
  | Some s =>
      let st := scan (in_bounds total) s in
      if decide (selected st = ∅) then (Py.all_indices total, [WarnNoneSelected])
      else if decide (invalid_tokens st = []) then (selected st, [])
      else (selected st, [WarnInvalid (invalid_tokens st)])
  end.

(** A rejected token is reported when a printed warning names it. *)
Definition reported (t : string) (out : list diag) : Prop :=
  ∃ tokens, WarnInvalid tokens ∈ out ∧ t ∈ tokens.

(** The answer of the speech service to one request. *)
Inductive response :=
  | ApiError
    (** [openai.audio.speech.create] raised *)
  | Stream (chunks : list string) (broken : bool)
    (** a response with [iter_bytes]; [broken]: the iteration raises
        after the chunks *)
  | Body (bytes : string)
    (** a response [_response_to_bytes] reads as these bytes *)
  | NotBytes
    (** a response of which [_response_to_bytes] returns a content that is
        not bytes: [f.write] raises on it *)
  | Unsupported.
    (** a response for which [_response_to_bytes] raises *)

(** A printed line. *)
Inductive line :=
  | LDiag (d : diag)
  | LReadError
  | LNoSlides
  | LFound (total : Z)
  | LProcessingSlides (indices : list Z)
  | LProcessing (i : Z)
  | LSaved (output_file : string)
  | LSpeechError.

(** What the code acts on: the files, the requests made to the speech
    service, the lines printed. A file is known by the text of its path, as
    the code passes it to [open]. Directories are not modelled: creating one
    always succeeds. *)
Record world := World {
  files : gmap string string;
  requests : list (string * string * string);
  stdout : list line
}.

(** The environment: the speech service, which paths can be opened for
    writing, and the writes that fail: [write_fault path data = Some n] when
    writing [data] to the file opened at [path] raises, after [n] bytes have
    reached the file. *)
Record env := Env {
  speech : string → string → response;
  writable : string → bool;
  write_fault : string → string → option nat
}.

Definition print (l : line) (w : world) : world :=
  World (files w) (requests w) (stdout w ++ [l]).

Definition write_file (path data : string) (w : world) : world :=
  World (<[path := data]> (files w)) (requests w) (stdout w).

Definition request (text output_file voice : string) (w : world) : world :=
  World (files w) (requests w ++ [(text, output_file, voice)]) (stdout w).

(** [b"".join(chunk for chunk in chunks if chunk)], the bytes the loop of
    [text_to_speech] writes. *)
Definition written (chunks : list string) : string :=
  foldr String.append EmptyString chunks.

(** The body of [with open(output_file, "wb") as f], which has emptied the
    file: writing [data], and whether that went through. *)
Definition store (e : env) (output_file data : string) (w : world)
    : bool * world :=
  match write_fault e output_file data with
  | None => (true, write_file output_file data w)
  | Some n => (false, write_file output_file (Py.take_str n data) w)
  end.

(** [text_to_speech(text, output_file, voice)] *)
Definition text_to_speech (e : env) (text output_file voice : string)
    (w : world) : bool * world :=
  let w := request text output_file voice w in
  match speech e text voice with
  | ApiError => (false, print LSpeechError w)
  | Stream chunks broken =>
      if writable e output_file then
        let '(ok, w) := store e output_file (written chunks) w in
        if ok && negb broken then (true, print (LSaved output_file) w)
        else (false, print LSpeechError w)
      else (false, print LSpeechError w)
  | Body bytes =>
      if writable e output_file then
        let '(ok, w) := store e output_file bytes w in
        if ok then (true, print (LSaved output_file) w)
        else (false, print LSpeechError w)
      else (false, print LSpeechError w)
  | NotBytes =>
      if writable e output_file then
        (false, print LSpeechError (write_file output_file EmptyString w))
      else (false, print LSpeechError w)
  | Unsupported => (false, print LSpeechError w)
  end.

(** [f"slide_{i:02d}.mp3"] *)
Definition slide_name (i : Z) : string :=
  "slide_" +:+ Py.fmt_02d i +:+ ".mp3".

(** [str(output_path / f"slide_{i:02d}.mp3")], for
    [output_path = Path(output_dir)] *)
Definition slide_file (output_dir : string) (i : Z) : string :=
  Py.path_join output_dir (slide_name i).

(** The body of [for i in selected_indices]. An exception stops the loop. *)
Definition process_slide (e : env) (slides : list string)
    (output_dir voice : string) (acc : result unit * world) (i : Z)
    : result unit * world :=
  match acc with
  | (Raise x, w) => (Raise x, w)
  | (Ok _, w) =>
      match Py.index slides (i - 1) with
      | None => (Raise IndexError, w)
      | Some slide_text =>
          if decide (Py.strip slide_text = EmptyString) then (Ok (), w)
          else
            let output_file := slide_file output_dir i in
            let w := print (LProcessing i) w in
            (Ok (), (text_to_speech e slide_text output_file voice w).2)
      end
  end.

(** [sorted(_parse_slides_option(slides_opt, total))] *)
Definition selected_indices (slides_opt : option string) (total : Z) : list Z :=
  Py.sorted Z.leb (elements (_parse_slides_option slides_opt total).1).

(** The request made for a selected index: none for a slide without text. *)
Definition spoken (slides : list string) (output_dir voice : string) (i : Z)
    : option (string * string * string) :=
  match Py.index slides (i - 1) with
  | Some slide_text =>
      if decide (Py.strip slide_text = EmptyString) then None
      else Some (slide_text, slide_file output_dir i, voice)
  | None => None
  end.

(** [process_presentation(input_file, output_dir, voice, slides_opt)] *)
Definition process_presentation (e : env) (input_file output_dir voice : string)
    (slides_opt : option string) (w : world) : result unit * world :=
  match files w !! input_file with
  | None => (Ok (), print LReadError w)
  | Some text =>
      let slides := split_text_by_slides text in
      match slides with
      | [] => (Ok (), print LNoSlides w)
      | _ :: _ =>
          let total := Z.of_nat (length slides) in
          let w := print (LFound total) w in
          let parsed := _parse_slides_option slides_opt total in
          let w := foldl (λ w d, print (LDiag d) w) w parsed.2 in
          let indices := Py.sorted Z.leb (elements parsed.1) in
          let w := print (LProcessingSlides indices) w in
          foldl (process_slide e slides output_dir voice) (Ok (), w) indices
      end
  end.

End Tts.

(** ** merge_mp3s.py *)

Module Merge.

(** A [Path] is the list of its parts; [str(p)] joins them with slashes and
    [p.name] is the last part. *)
Abbreviation path := (list string).

Definition name (p : path) : string := default EmptyString (last p).

Definition path_str (p : path) : string := Py.join "/" p.

(** [Path.__le__]: the parts compared in order, each as a string. *)
Fixpoint path_leb (a b : path) : bool :=
  match a, b with
  | [], _ => true
  | _ :: _, [] => false
  | x :: a', y :: b' =>
      match String.compare x y with
      | Lt => true
      | Gt => false
      | Eq => path_leb a' b'
      end
  end.

Inductive diag :=
  | WarnInvalid (tokens : list string)
  | WarnExceeds (bound : Z).

Definition at_least_one (i : Z) : bool := 1 <=? i.

(** [_parse_slides_option(slides_opt, max_upper_bound_hint)] *)
Definition _parse_slides_option (slides_opt : option string)
    (max_upper_bound_hint : option Z) : gset Z * list diag :=
  match slides_opt with
  | None | Some EmptyString => (∅, [])
  | Some s =>
      let st := scan at_least_one s in
      let w1 := if decide (invalid_tokens st = []) then []
                else [WarnInvalid (invalid_tokens st)] in
      let w2 := match max_upper_bound_hint with
                | Some b =>
                    if bool_decide (Exists (λ i, b < i) (elements (selected st)))
                    then [WarnExceeds b] else []
                | None => []
                end in
      (selected st, w1 ++ w2)
  end.

(** [r"^slide_(\d+)\.mp3$"] with [re.IGNORECASE] *)
Definition name_re : Re.regex :=
  Re.Regex (Re.Flags true false)
    ([Re.Bol] ++ Re.lits "slide_" ++ [Re.Plus Re.CDigit] ++ Re.lits ".mp3"
     ++ [Re.Eol]).

(** [m.group(1)]: the text of the eighth atom of [name_re], the digits. *)
Definition group1 (pieces : list string) : string :=
  default EmptyString (pieces !! 7%nat).

(** [_extract_slide_num(path)] *)
Definition _extract_slide_num (p : path) : option Z :=
  match Re.re_match name_re (name p) with
  | None => None
  | Some m => Py.int_of_string (group1 m)
  end.

(** A printed line. *)
Inductive line :=
  | LDiag (d : diag)
  | LNoFfmpeg
  | LOutputExists (output : path)
  | LCopyError
  | LMerging (n : nat)
  | LRetry
  | LFailed
  | LCopyStderr (text : string)
  | LReencodeStderr (text : string)
  | LDirNotFound (directory : path)
  | LNoSlideMatch
  | LNoPatternMatch (pattern : string) (directory : path)
  | LFilesToMerge
  | LFile (name : string)
  | LSaved (output : path).

(** The files with their contents, the encoder commands run so far and the
    lines printed. Directories are not modelled: [mkdir] always succeeds. *)
Record world := World {
  files : gmap path string;
  execs : list (list string);
  stdout : list line
}.

(** The environment of a run. [resolve p = None]: [p.resolve()] raises.
    [ffmpeg cmd fs] is the exit status, the error text and the files after
    the encoder has run [cmd] on the files [fs]. *)
Record env := Env {
  which_ffmpeg : option string;
  resolve : path → option path;
  glob : path → string → list path;
  is_dir : path → bool;
  ffmpeg : list string → gmap path string → Z * string * gmap path string;
  tmp_file : path
}.

Definition print (l : line) (w : world) : world :=
  World (files w) (execs w) (stdout w ++ [l]).

Definition set_files (fs : gmap path string) (w : world) : world :=
  World fs (execs w) (stdout w).

(** [_collect_files(directory, pattern, slides_filter)] *)
Definition _collect_files (e : env) (directory : path) (pattern : string)
    (slides_filter : gset Z) : list path :=
  let files := Py.sorted path_leb (glob e directory pattern) in
  if decide (slides_filter = ∅) then files
  else
    let by_num :=
      omap (λ f, match _extract_slide_num f with
                 | Some num =>
                     if decide (num ∈ slides_filter) then Some (num, f)
                     else None
                 | None => None
                 end) files in
    (Py.sorted (λ t u : Z * path, t.1 <=? u.1) by_num).*2.

(** The naming convention of the slide files, as the code reads it: in any
    case slide_, digits and .mp3, possibly with a newline after it; the
    digits are the number of the slide. *)
Definition slide_name (name : string) (n : Z) : Prop :=
  ∃ stem digits ext tail,
    name = stem +:+ digits +:+ ext +:+ tail
    ∧ Re.lower_str stem = "slide_"
    ∧ Py.all_chars Py.is_digit digits = true ∧ digits ≠ EmptyString
    ∧ Re.lower_str ext = ".mp3"
    ∧ (tail = EmptyString ∨ tail = String Re.nl EmptyString)
    ∧ n = Py.digits_value 0 digits.

(** The files the selection keeps: the name is a slide name and its number
    is selected. *)
Definition keeps (slides_filter : gset Z) (f : path) : bool :=
  match _extract_slide_num f with
  | Some num => bool_decide (num ∈ slides_filter)
  | None => false
  end.


(** The text [_write_ffmpeg_concat_list] writes, and whether a
    [p.resolve()] raised on the way. *)
Fixpoint manifest (e : env) (inputs : list path) : string * option exn :=
  match inputs with
  | [] => (EmptyString, None)
  | p :: rest =>
      match resolve e p with
      | None => (EmptyString, Some ResolveError)
      | Some abspath =>
          let '(text, x) := manifest e rest in
          ("file '" +:+ path_str abspath +:+ "'" +:+ String Re.nl text, x)
      end
  end.

(** [_write_ffmpeg_concat_list(inputs)] *)
Definition _write_ffmpeg_concat_list (e : env) (inputs : list path)
    (w : world) : result path * world :=
  let '(text, x) := manifest e inputs in
  let w := set_files (<[tmp_file e := text]> (files w)) w in
  match x with
  | None => (Ok (tmp_file e), w)
  | Some x => (Raise x, w)
  end.

Definition cmd_copy (exe flag : string) (list_file output : path)
    : list string :=
  [exe; "-hide_banner"; "-loglevel"; "error"; flag; "-f"; "concat";
   "-safe"; "0"; "-i"; path_str list_file; "-c"; "copy"; path_str output].

Definition cmd_reencode (exe flag : string) (list_file output : path)
    : list string :=
  [exe; "-hide_banner"; "-loglevel"; "error"; flag; "-f"; "concat";
   "-safe"; "0"; "-i"; path_str list_file; "-c:a"; "libmp3lame";
   "-b:a"; "192k"; "-ar"; "44100"; "-ac"; "2"; path_str output].

(** [subprocess.run(cmd, ...)]: the exit status and the error text. *)
Definition run (e : env) (cmd : list string) (w : world)
    : (Z * string) * world :=
  let '(returncode, stderr, fs) := ffmpeg e cmd (files w) in
  ((returncode, stderr), World fs (execs w ++ [cmd]) (stdout w)).

(** [res.returncode == 0 and output.exists() and output.stat().st_size > 0] *)
Definition succeeded (returncode : Z) (output : path) (w : world) : bool :=
  (returncode =? 0)
  && match files w !! output with
     | Some data => (0 <? String.length data)%nat
     | None => false
     end.

(** The success condition of an attempt, on the files [fs] it leaves. *)
Definition attempt_ok (returncode : Z) (output : path)
    (fs : gmap path string) : Prop :=
  returncode = 0 ∧ ∃ data, fs !! output = Some data ∧ data ≠ EmptyString.

(** [shutil.copyfile(src, dst)]: [None] when it raises, for a source that
    does not exist or is the destination itself. *)
Definition copyfile (src dst : path) (w : world) : option world :=
  match files w !! src with
  | Some data =>
      if decide (src = dst) then None
      else Some (set_files (<[dst := data]> (files w)) w)
  | None => None
  end.

(** The fast path of [_run_ffmpeg_concat] for a single input. *)
Definition copy_single (input output : path) (overwrite : bool) (w : world)
    : bool * world :=
  if bool_decide (is_Some (files w !! output)) && negb overwrite
  then (false, print (LOutputExists output) w)
  else match copyfile input output w with
       | Some w' => (true, w')
       | None => (false, print LCopyError w)
       end.

Definition print_stderr (mk : string → line) (stderr : string) (w : world)
    : world :=
  if decide (stderr = EmptyString) then w else print (mk (Py.strip stderr)) w.

(** The two attempts of [_run_ffmpeg_concat], inside its [try]. *)
Definition concat_attempts (e : env) (exe : string) (n : nat)
    (list_file output : path) (overwrite : bool) (w : world) : bool * world :=
  let overwrite_flag := if overwrite then "-y" else "-n" in
  let w := print (LMerging n) w in
  let '(res, w) := run e (cmd_copy exe overwrite_flag list_file output) w in
  if succeeded res.1 output w then (true, w)
  else
    let w := print LRetry w in
    let '(res2, w) :=
      run e (cmd_reencode exe overwrite_flag list_file output) w in
    if succeeded res2.1 output w then (true, w)
    else
      let w := print LFailed w in
      let w := print_stderr LCopyStderr res.2 w in
      let w := print_stderr LReencodeStderr res2.2 w in
      (false, w).

(** [_run_ffmpeg_concat(inputs, output, overwrite)] *)
Definition _run_ffmpeg_concat (e : env) (inputs : list path) (output : path)
    (overwrite : bool) (w : world) : result bool * world :=
  match which_ffmpeg e with
  | None => (Ok false, print LNoFfmpeg w)
  | Some exe =>
      match inputs with
      | [input] =>
          let '(ok, w) := copy_single input output overwrite w in (Ok ok, w)
      | _ =>
          match _write_ffmpeg_concat_list e inputs w with
          | (Raise x, w) => (Raise x, w)
          | (Ok list_file, w) =>
              let '(ok, w) :=
                concat_attempts e exe (length inputs) list_file output
                  overwrite w in
              (Ok ok, set_files (delete list_file (files w)) w)
          end
      end
  end.

(** The command line of [main], parsed. *)
Record args := Args {
  directory : path;
  pattern : string;
  slides : option string;
  output : option path;
  overwrite : bool
}.

Definition output_path (a : args) : path :=
  match output a with
  | Some out => out
  | None => directory a ++ ["merged_slides.mp3"]
  end.

(** The [try] ... [except] of [main] that takes the output file out of the
    inputs: by resolved path, and by the text of the path when a
    [resolve()] raises. *)
Definition exclude_output (e : env) (files : list path) (out : path)
    : list path :=
  match resolve e out with
  | Some out_resolved =>
      if forallb (λ f, bool_decide (is_Some (resolve e f))) files
      then filter (λ f, resolve e f ≠ Some out_resolved) files
      else filter (λ f, path_str f ≠ path_str out) files
  | None => filter (λ f, path_str f ≠ path_str out) files
  end.

(** Every [resolve()] of the exclusion step returns. *)
Definition resolvable (e : env) (files : list path) (out : path) : Prop :=
  is_Some (resolve e out) ∧ Forall (λ f, is_Some (resolve e f)) files.

(** No input is the output file: none resolves to what the output path
    resolves to. *)
Definition output_excluded (e : env) (inputs : list path) (out : path) : Prop :=
  ∀ f r, f ∈ inputs → resolve e out = Some r → resolve e f ≠ Some r.

(** The inputs [main] hands to [_run_ffmpeg_concat]. *)
Definition merge_inputs (e : env) (a : args) : list path :=
  let slides_filter := (_parse_slides_option (slides a) None).1 in
  exclude_output e (_collect_files e (directory a) (pattern a) slides_filter)
    (output_path a).

(** [main(argv)]: the exit status. *)
Definition main (e : env) (a : args) (w : world) : result Z * world :=
  if negb (is_dir e (directory a))
  then (Ok 1, print (LDirNotFound (directory a)) w)
  else
    let parsed := _parse_slides_option (slides a) None in
    let w := foldl (λ w d, print (LDiag d) w) w parsed.2 in
    let files := merge_inputs e a in
    match files with
    | [] =>
        if decide (parsed.1 = ∅)
        then (Ok 2, print (LNoPatternMatch (pattern a) (directory a)) w)
        else (Ok 2, print LNoSlideMatch w)
    | _ :: _ =>
        let w := print LFilesToMerge w in
        let w := foldl (λ w f, print (LFile (name f)) w) w files in
        match _run_ffmpeg_concat e files (output_path a) (overwrite a) w with
        | (Raise x, w) => (Raise x, w)
        | (Ok false, w) => (Ok 3, w)
        | (Ok true, w) => (Ok 0, print (LSaved (output_path a)) w)
        end
    end.

End Merge.

(** ** sum_mp3_durations.py *)

Module Durations.

(** A Python [float] that is a duration is a rational number here; only its
    comparisons with [0] and [0.0005] matter. *)

(** What one [ffprobe] query gives: [check_output] raised, the output is
    empty once stripped, its first line is not a float, or it is the float
    [val]. *)
Inductive probe :=
  | ProbeRaised
  | ProbeEmpty
  | ProbeNotFloat
  | ProbeFloat (val : Q).

(** The environment. [mutagen_file path]: [None] when [MutagenFile(path)]
    raises, [Some None] when no length can be read from its result. *)
Record env := Env {
  mutagen_installed : bool;
  mutagen_file : string → option (option Q);
  which_ffprobe : option string;
  probe_stream : string → probe;
  probe_format : string → probe
}.

Definition threshold : Q := 5 # 10000.

(** [a > b] on floats *)
Definition gt (a b : Q) : bool := negb (Qle_bool a b).

(** [bool(x)] on a float *)
Definition truthy (x : Q) : bool := negb (Qeq_bool x 0).

(** [_duration_via_mutagen(path)]; [None] when it raises. *)
Definition _duration_via_mutagen (e : env) (path : string) : option Q :=
  if mutagen_installed e then
    match mutagen_file e path with
    | None => None
    | Some None => Some 0%Q
    | Some (Some length) => Some (if truthy length then length else 0%Q)
    end
  else None.

(** The second query of [_duration_via_ffprobe], on the duration of the
    container. [None] is Python's [None], which the function returns when
    it comes to its end without a [return]. *)
Definition ffprobe_format (e : env) (path : string) : option Q :=
  match probe_format e path with
  | ProbeFloat val => Some (if gt val 0 then val else 0%Q)
  | ProbeNotFloat => Some 0%Q
  | ProbeRaised => Some 0%Q
  | ProbeEmpty => None
  end.

(** [_duration_via_ffprobe(path)]: the query on the duration of the audio
    stream, then the one on the container. *)
Definition _duration_via_ffprobe (e : env) (path : string) : option Q :=
  match which_ffprobe e with
  | None => Some 0%Q
  | Some _ =>
      match probe_stream e path with
      | ProbeFloat val => if gt val 0 then Some val else ffprobe_format e path
      | _ => ffprobe_format e path
      end
  end.

(** [get_mp3_duration_seconds(path)]. Comparing [None] with a float raises
    [TypeError]. *)
Definition get_mp3_duration_seconds (e : env) (path : string)
    : result (Q * string) :=
  let dur := default 0%Q (_duration_via_mutagen e path) in
  if Qle_bool dur threshold then
    match _duration_via_ffprobe e path with
    | None => Raise TypeError
    | Some ff_dur =>
        if gt ff_dur threshold then Ok (ff_dur, "ffprobe")
        else Ok (0%Q, "unknown")
    end
  else Ok (dur, "mutagen").

(** *** The measurement as the specification words it *)

(** The value of the metadata reader, when it is above the threshold. *)
Definition usable_mutagen (e : env) (path : string) : option Q :=
  match _duration_via_mutagen e path with
  | Some d => if gt d threshold then Some d else None
  | None => None
  end.


(** The first answer of a list of queries that satisfies [accept]. *)
Fixpoint first_accepted (accept : Q → bool) (answers : list probe) : option Q :=
  match answers with
  | ProbeFloat val :: rest =>
      if accept val then Some val else first_accepted accept rest
  | _ :: rest => first_accepted accept rest
  | [] => None
  end.



(** The second query is consulted: the metadata reader gave nothing usable,
    the tool is there and the first query gave no positive float. *)
Definition format_consulted (e : env) (path : string) : Prop :=
  usable_mutagen e path = None ∧ which_ffprobe e ≠ None
  ∧ first_accepted (λ v, gt v 0) [probe_stream e path] = None.

(** *** Printing the durations *)

(** [format_seconds] from [total_ms] on. *)
Definition format_ms (total_ms : Z) : string :=
  let hrs := total_ms / 3600000 in
  let rem := total_ms mod 3600000 in
  let mins := rem / 60000 in
  let rem := rem mod 60000 in
  let secs := rem / 1000 in
  let ms := rem mod 1000 in
  if 0 <? hrs
  then Py.fmt_0d 2 hrs +:+ ":" +:+ Py.fmt_0d 2 mins +:+ ":"
       +:+ Py.fmt_0d 2 secs +:+ "." +:+ Py.fmt_0d 3 ms
  else Py.fmt_0d 2 mins +:+ ":" +:+ Py.fmt_0d 2 secs +:+ "."
       +:+ Py.fmt_0d 3 ms.

(** [format_seconds(seconds)]. [to_ms] is [int(round(seconds * 1000))],
    which is float arithmetic. *)
Definition format_seconds (to_ms : Q → Z) (seconds : option Q) : string :=
  match seconds with
  | None => "unknown"
  | Some s => format_ms (to_ms s)
  end.

(** A float of [main]. The durations measured are rationals; their sum and
    [seconds * 1000] can leave them. *)
Inductive float :=
  | Fin (q : Q)
  | Inf (negative : bool)
  | NaN.

(** A printed line of [main]. *)
Inductive line :=
  | LDirNotFound (directory : Merge.path)
  | LNoMatch (pattern : string) (directory : Merge.path)
  | LScanning (n : nat) (directory : Merge.path) (pattern : string)
  | LDuration (name shown extra : string)
  | LError (name : string) (x : exn)
  | LTotalHeader
  | LTotal (shown : string) (total_seconds : float)
  | LHint.

(** What [main] needs beyond the measurement: the directory, for a pattern
    that [glob] accepts, and the arithmetic of floats: [total + dur],
    [seconds * 1000] and, for a finite [x], [int(round(x))]. *)
Record dir_env := DirEnv {
  is_dir : Merge.path → bool;
  glob : Merge.path → string → list Merge.path;
  fadd : float → Q → float;
  fmul1000 : Q → float;
  fround : Q → Z
}.

(** [format_seconds(seconds)] on a float of [main]: [round] raises
    [OverflowError] on an infinity and [ValueError] on a NaN. *)
Definition format_float (d : dir_env) (seconds : float) : result string :=
  let product := match seconds with
                 | Fin s => fmul1000 d s
                 | Inf negative => Inf negative
                 | NaN => NaN
                 end in
  match product with
  | Fin x => Ok (format_ms (fround d x))
  | Inf _ => Raise OverflowError
  | NaN => Raise ValueError
  end.

(** [total_seconds <= 0.0005] *)
Definition le_threshold (total_seconds : float) : bool :=
  match total_seconds with
  | Fin q => Qle_bool q threshold
  | Inf negative => negative
  | NaN => false
  end.

(** [f" (via {source})" if source != "mutagen" else ""] *)
Definition extra (source : string) : string :=
  if decide (source = "mutagen") then EmptyString
  else " (via " +:+ source +:+ ")".

(** The body of [for f in files], on the running total and the lines
    printed. The [try] holds the measurement, the addition and the
    printing of the line, in this order. *)
Definition scan_file (e : env) (d : dir_env) (acc : float * list line)
    (f : Merge.path) : float * list line :=
  match get_mp3_duration_seconds e (Merge.path_str f) with
  | Ok (dur, source) =>
      let total_seconds := fadd d acc.1 dur in
      match format_float d (Fin dur) with
      | Ok shown =>
          (total_seconds,
           acc.2 ++ [LDuration (Merge.name f) shown (extra source)])
      | Raise x => (total_seconds, acc.2 ++ [LError (Merge.name f) x])
      end
  | Raise x => (acc.1, acc.2 ++ [LError (Merge.name f) x])
  end.

(** [main()]: the exit status, or the exception that escapes, and the lines
    printed. *)
Definition main (e : env) (d : dir_env) (directory : Merge.path)
    (pattern : string) : result Z * list line :=
  if negb (is_dir d directory) then (Ok 1, [LDirNotFound directory])
  else
    let files := Py.sorted Merge.path_leb (glob d directory pattern) in
    match files with
    | [] => (Ok 0, [LNoMatch pattern directory])
    | _ :: _ =>
        let '(total_seconds, out) :=
          foldl (scan_file e d)
            (Fin 0, [LScanning (length files) directory pattern]) files in
        let out := out ++ [LTotalHeader] in
        match format_float d total_seconds with
        | Ok shown =>
            (Ok 0, out ++ [LTotal shown total_seconds]
                   ++ if le_threshold total_seconds then [LHint] else [])
        | Raise x => (Raise x, out)
        end
    end.

End Durations.

(** * Properties *)

(** ** Strings *)

Lemma string_app_cons (c : ascii) (a b : string) :
  String c a +:+ b = String c (a +:+ b).
Proof. reflexivity. Qed.

Lemma string_app_assoc (a b c : string) : (a +:+ b) +:+ c = a +:+ (b +:+ c).
Proof.
  induction a as [|x a IH]; [done|].
  by rewrite !string_app_cons, IH.
Qed.

Lemma string_app_nil_r (a : string) : a +:+ "" = a.
Proof. induction a as [|x a IH]; [done|]. by rewrite string_app_cons, IH. Qed.

Lemma string_app_length (a b : string) :
  String.length (a +:+ b) = (String.length a + String.length b)%nat.
Proof.
  induction a as [|x a IH]; [done|].
  rewrite string_app_cons. simpl. by rewrite IH.
Qed.

Lemma string_app_nil_inv (a b : string) : a +:+ b = "" → a = "" ∧ b = "".
Proof. by destruct a. Qed.

Lemma all_chars_app (p : ascii → bool) (a b : string) :
  Py.all_chars p (a +:+ b) = Py.all_chars p a && Py.all_chars p b.
Proof.
  induction a as [|x a IH]; [done|].
  rewrite string_app_cons. simpl. rewrite IH. by destruct (p x).
Qed.

Lemma contains_app (c : ascii) (a b : string) :
  Py.contains c (a +:+ b) = Py.contains c a || Py.contains c b.
Proof.
  induction a as [|x a IH]; [done|].
  rewrite string_app_cons. simpl. by destruct (decide (x = c)).
Qed.

Lemma contains_all_chars (p : ascii → bool) (c : ascii) (s : string) :
  Py.all_chars p s = true → p c = false → Py.contains c s = false.
Proof.
  intros Hs Hc. induction s as [|x s IH]; [done|]. simpl in *.
  apply andb_true_iff in Hs as [Hx Hs].
  destruct (decide (x = c)) as [->|]; [congruence|auto].
Qed.

Lemma split_on_absent (c : ascii) (s : string) :
  Py.contains c s = false → Py.split_on c s = [s].
Proof.
  induction s as [|x s IH]; [done|]. simpl.
  destruct (decide (x = c)); [done|]. intros H. by rewrite IH.
Qed.

Lemma split1_app (c : ascii) (a b : string) :
  Py.contains c a = false → Py.split1 c (a +:+ String c b) = (a, b).
Proof.
  induction a as [|x a IH]; simpl.
  - intros _. change ("" +:+ String c b) with (String c b). simpl.
    by rewrite decide_True.
  - rewrite ?string_app_cons. simpl.
    destruct (decide (x = c)); [done|]. intros H. by rewrite IH.
Qed.

Lemma last_char_app (a b : string) :
  b ≠ "" → Py.last_char (a +:+ b) = Py.last_char b.
Proof.
  intros Hb. induction a as [|x a IH]; [done|].
  rewrite string_app_cons. simpl. rewrite IH.
  destruct (a +:+ b) eqn:Hab; [|done].
  by apply string_app_nil_inv in Hab as [_ ?].
Qed.

Lemma last_char_all_chars (p : ascii → bool) (s : string) (c : ascii) :
  Py.all_chars p s = true → Py.last_char s = Some c → p c = true.
Proof.
  induction s as [|x s IH]; [done|]. simpl.
  intros [Hx Hs]%andb_true_iff. destruct s; [by intros [= <-]|auto].
Qed.

Lemma last_char_nonempty (s : string) : s ≠ "" → is_Some (Py.last_char s).
Proof.
  induction s as [|x s IH]; [done|]. intros _. simpl.
  destruct s; [by eexists|]. by apply IH.
Qed.

Lemma rstrip_by_id (p : ascii → bool) (s : string) :
  (∀ c, Py.last_char s = Some c → p c = false) → Py.rstrip_by p s = s.
Proof.
  induction s as [|x s IH]; [done|]. intros H. simpl.
  destruct s as [|y s].
  - simpl. by rewrite (H x eq_refl).
  - rewrite IH by (intros c Hc; by apply H). done.
Qed.

Lemma strip_by_id (p : ascii → bool) (c : ascii) (s : string) :
  p c = false →
  (∀ d, Py.last_char (String c s) = Some d → p d = false) →
  Py.strip_by p (String c s) = String c s.
Proof.
  intros Hc Hlast. unfold Py.strip_by. simpl Py.lstrip_by. rewrite Hc.
  by apply rstrip_by_id.
Qed.

(** ** Decimal numerals *)

Lemma digit_other (c : ascii) :
  Py.is_digit c = true →
  Py.is_space c = false ∧ Py.is_int_space c = false
  ∧ c ≠ ","%char ∧ c ≠ "-"%char ∧ c ≠ "+"%char ∧ c ≠ "_"%char.
Proof.
  destruct c as [[] [] [] [] [] [] [] []]; vm_compute; intros H;
    try discriminate H; repeat split; discriminate.
Qed.

Lemma digit_val_is_digit (c : ascii) :
  Py.is_digit c = true → Py.digit_val c = Some (default 0 (Py.digit_val c)).
Proof.
  unfold Py.is_digit. intros [v Hv]%bool_decide_eq_true. by rewrite Hv.
Qed.

Lemma pretty_N_char_digit (x : N) :
  (x < 10)%N → Py.digit_val (pretty_N_char x) = Some (Z.of_N x).
Proof.
  intros Hx.
  assert (x = 0 ∨ x = 1 ∨ x = 2 ∨ x = 3 ∨ x = 4 ∨ x = 5 ∨ x = 6 ∨ x = 7
          ∨ x = 8 ∨ x = 9)%N as H by lia.
  repeat (destruct H as [->|H]; [reflexivity|]). by subst.
Qed.

Lemma digits_value_app (acc : Z) (a b : string) :
  Py.digits_value acc (a +:+ b) = Py.digits_value (Py.digits_value acc a) b.
Proof.
  revert acc. induction a as [|x a IH]; intros acc; [done|].
  rewrite string_app_cons. simpl. by rewrite IH.
Qed.

Lemma pretty_N_go_digits (x : N) (s : string) :
  ∃ d, pretty_N_go x s = d +:+ s
       ∧ Py.all_chars Py.is_digit d = true
       ∧ Py.digits_value 0 d = Z.of_N x
       ∧ ((0 < x)%N → d ≠ "").
Proof.
  revert s. induction (N.lt_wf_0 x) as [x _ IH]. intros s.
  destruct (decide (x = 0)%N) as [->|Hx].
  { exists "". rewrite pretty_N_go_0. repeat split; try done; lia. }
  rewrite pretty_N_go_step by lia.
  destruct (IH (x `div` 10)%N ltac:(apply N.div_lt; lia)
              (String (pretty_N_char (x `mod` 10)) s))
    as (d & Hd & Hall & Hval & _).
  pose proof (pretty_N_char_digit (x `mod` 10)%N
                ltac:(apply N.mod_lt; lia)) as Hc.
  exists (d +:+ String (pretty_N_char (x `mod` 10)) "").
  rewrite Hd, string_app_assoc, all_chars_app, digits_value_app, Hall, Hval.
  simpl. rewrite Hc. unfold Py.is_digit. rewrite Hc. simpl.
  repeat split.
  - pose proof (N.div_mod x 10 ltac:(lia)). lia.
  - intros _ [_ ?]%string_app_nil_inv. done.
Qed.

(** [str] of a non-negative integer is its decimal numeral. *)
Lemma str_nonneg (a : Z) :
  0 ≤ a →
  Py.all_chars Py.is_digit (Py.str a) = true ∧ Py.str a ≠ ""
  ∧ Py.digits_value 0 (Py.str a) = a.
Proof.
  intros Ha. destruct a as [|q|q]; [done| |lia].
  unfold Py.str, pretty, pretty_Z, pretty, pretty_positive, pretty, pretty_N.
  rewrite decide_False by done.
  destruct (pretty_N_go_digits (N.pos q) "") as (d & -> & Hall & Hval & Hne).
  rewrite string_app_nil_r. repeat split; [done|by apply Hne|done].
Qed.

Lemma str_neg (a : Z) :
  a < 0 → ∃ d, Py.str a = String "-" d ∧ Py.all_chars Py.is_digit d = true
               ∧ d ≠ "".
Proof.
  intros Ha. destruct a as [|q|q]; [lia..|].
  destruct (str_nonneg (Z.pos q) ltac:(done)) as (Hall & Hne & _).
  exists (Py.str (Z.pos q)). done.
Qed.

Lemma int_digits_numeral (d : string) (acc : Z) (prev : bool) :
  Py.all_chars Py.is_digit d = true → d ≠ "" →
  Py.int_digits acc prev d = Some (Py.digits_value acc d).
Proof.
  revert acc prev. induction d as [|c d IH]; intros acc prev Hall Hne; [done|].
  simpl in *. apply andb_true_iff in Hall as [Hc Hall].
  rewrite (digit_val_is_digit c Hc). simpl.
  destruct d as [|c' d]; [done|]. by apply IH.
Qed.

Lemma numeral_ends (d : string) :
  Py.all_chars Py.is_digit d = true → d ≠ "" →
  ∃ c d', d = String c d' ∧ Py.is_digit c = true
          ∧ ∀ x, Py.last_char d = Some x → Py.is_digit x = true.
Proof.
  intros Hall Hne. destruct d as [|c d']; [done|].
  exists c, d'. split; [done|]. split.
  - simpl in Hall. by apply andb_true_iff in Hall as [? _].
  - intros x. by apply last_char_all_chars.
Qed.

Lemma strip_numeral (d : string) :
  Py.all_chars Py.is_digit d = true → d ≠ "" →
  Py.strip d = d ∧ Py.strip_by Py.is_int_space d = d.
Proof.
  intros Hall Hne.
  destruct (numeral_ends d Hall Hne) as (c & d' & -> & Hc & Hlast).
  split; apply strip_by_id; try (by apply digit_other);
    intros x Hx; by apply digit_other, Hlast.
Qed.

(** [int] reads a numeral back. *)
Lemma int_of_string_numeral (d : string) :
  Py.all_chars Py.is_digit d = true → d ≠ "" →
  Py.int_of_string d = Some (Py.digits_value 0 d).
Proof.
  intros Hall Hne. unfold Py.int_of_string.
  rewrite (proj2 (strip_numeral d Hall Hne)).
  rewrite <- (int_digits_numeral d 0 false Hall Hne).
  destruct (numeral_ends d Hall Hne) as (c & d' & -> & Hc & _).
  destruct c as [[] [] [] [] [] [] [] []]; try reflexivity;
    vm_compute in Hc; discriminate.
Qed.

Lemma int_of_string_str (a : Z) : 0 ≤ a → Py.int_of_string (Py.str a) = Some a.
Proof.
  intros Ha. destruct (str_nonneg a Ha) as (Hall & Hne & Hval).
  by rewrite int_of_string_numeral, Hval.
Qed.

(** ** The matcher and the meaning of patterns *)

Lemma last_or_cons (prev : option ascii) (c : ascii) (w : string) :
  Re.last_or prev (String c w) = Re.last_or (Some c) w.
Proof.
  unfold Re.last_or. destruct w as [|d w]; [done|].
  change (Py.last_char (String c (String d w)))
    with (Py.last_char (String d w)).
  by destruct (last_char_nonempty (String d w) ltac:(done)) as [x ->].
Qed.

Section matcher.
Context (f : Re.flags).

Lemma m_star_sound (k : Re.cls)
    (cont : option ascii → string → option (list string))
    (prev : option ascii) (s : string) (r : list string) :
  Re.m_star f k cont prev s = Some r →
  ∃ w s' ps, r = w :: ps ∧ s = w +:+ s'
             ∧ Py.all_chars (Re.cls_match f k) w = true
             ∧ cont (Re.last_or prev w) s' = Some ps.
Proof.
  assert (Hstop : ∀ prev s r, cons "" <$> cont prev s = Some r →
            ∃ w s' ps, r = w :: ps ∧ s = w +:+ s'
                       ∧ Py.all_chars (Re.cls_match f k) w = true
                       ∧ cont (Re.last_or prev w) s' = Some ps).
  { intros prev0 s0 r0 (ps & Hps & ->)%fmap_Some. by exists "", s0, ps. }
  revert prev r. induction s as [|c s IH]; intros prev r; simpl.
  { apply Hstop. }
  destruct (Re.cls_match f k c) eqn:Hc; [|apply Hstop].
  destruct (Re.m_star f k cont (Some c) s) as [r'|] eqn:Hr'; [|apply Hstop].
  intros [= <-].
  destruct (IH _ _ Hr') as (w & s' & ps & -> & -> & Hw & Hcont).
  exists (String c w), s', ps. simpl. rewrite Hc, Hw, last_or_cons. done.
Qed.

Lemma m_star_complete (k : Re.cls)
    (cont : option ascii → string → option (list string))
    (prev : option ascii) (w s' : string) :
  Py.all_chars (Re.cls_match f k) w = true →
  is_Some (cont (Re.last_or prev w) s') →
  is_Some (Re.m_star f k cont prev (w +:+ s')).
Proof.
  revert prev. induction w as [|c w IH]; intros prev Hw Hcont.
  - change ("" +:+ s') with s'. change (Re.last_or prev "") with prev in Hcont.
    destruct Hcont as [ps Hps].
    destruct s' as [|c s']; simpl; [by rewrite Hps; eexists|].
    destruct (Re.cls_match f k c); [|by rewrite Hps; eexists].
    destruct (Re.m_star f k cont (Some c) s'); [by eexists|].
    rewrite Hps. by eexists.
  - simpl in Hw. apply andb_true_iff in Hw as [Hc Hw].
    rewrite string_app_cons. simpl. rewrite Hc.
    rewrite last_or_cons in Hcont.
    destruct (IH (Some c) Hw Hcont) as [r ->]. by eexists.
Qed.

Lemma m_atoms_sound (atoms : list Re.atom) (prev : option ascii) (s : string)
    (ps : list string) :
  Re.m_atoms f atoms prev s = Some ps → Re.matches f atoms prev s ps.
Proof.
  revert prev s ps. induction atoms as [|a atoms IH]; intros prev s ps; simpl.
  { intros [= <-]. constructor. }
  destruct a as [| |k|k|k].
  - destruct (Re.at_bol f prev) eqn:Hbol; [|done].
    intros (ps' & Hps' & ->)%fmap_Some. constructor; auto.
  - destruct (Re.at_eol f s) eqn:Heol; [|done].
    intros (ps' & Hps' & ->)%fmap_Some. constructor; auto.
  - destruct s as [|c s]; [done|].
    destruct (Re.cls_match f k c) eqn:Hc; [|done].
    intros (ps' & Hps' & ->)%fmap_Some. constructor; auto.
  - intros (w & s' & ps' & -> & -> & Hw & Hcont)%m_star_sound.
    constructor; auto.
  - destruct s as [|c s]; [done|].
    destruct (Re.cls_match f k c) eqn:Hc; [|done].
    intros (r & Hr & ->)%fmap_Some.
    apply m_star_sound in Hr as (w & s' & ps' & -> & -> & Hw & Hcont).
    simpl. rewrite <- string_app_cons. constructor; [done| |].
    + simpl. by rewrite Hc.
    + rewrite last_or_cons. auto.
Qed.

Lemma m_atoms_complete (atoms : list Re.atom) (prev : option ascii)
    (s : string) (ps : list string) :
  Re.matches f atoms prev s ps → is_Some (Re.m_atoms f atoms prev s).
Proof.
  induction 1 as [prev s|rest prev s ps Hbol _ [r IH]
                 |rest prev s ps Heol _ [r IH]
                 |k rest prev c s ps Hc _ [r IH]
                 |k rest prev w s ps Hw _ IH
                 |k rest prev w s ps Hne Hw _ IH]; simpl.
  - by eexists.
  - rewrite Hbol, IH. by eexists.
  - rewrite Heol, IH. by eexists.
  - rewrite Hc, IH. by eexists.
  - by apply m_star_complete.
  - destruct w as [|c w]; [done|]. simpl in Hw.
    apply andb_true_iff in Hw as [Hc Hw].
    rewrite string_app_cons, Hc. rewrite last_or_cons in IH.
    destruct (m_star_complete k (Re.m_atoms f rest) (Some c) w s Hw IH)
      as [r ->]. by eexists.
Qed.

(** The pieces of a match are a prefix of the text. *)
Lemma matches_prefix (atoms : list Re.atom) (prev : option ascii) (s : string)
    (ps : list string) :
  Re.matches f atoms prev s ps →
  ∃ rest, s = foldr String.append rest ps
          ∧ String.length s = (Re.span_len ps + String.length rest)%nat.
Proof.
  induction 1 as [prev s|rest prev s ps _ _ (t & -> & Hlen)
                 |rest prev s ps _ _ (t & -> & Hlen)
                 |k rest prev c s ps _ _ (t & -> & Hlen)
                 |k rest prev w s ps _ _ (t & -> & Hlen)
                 |k rest prev w s ps _ _ _ (t & -> & Hlen)].
  - by exists s.
  - by exists t.
  - by exists t.
  - exists t. simpl. split; [done|]. simpl in Hlen. lia.
  - exists t. simpl. split; [done|]. rewrite string_app_length, Hlen. lia.
  - exists t. simpl. split; [done|]. rewrite string_app_length, Hlen. lia.
Qed.

End matcher.

(** ** [finditer] finds the leftmost matches *)

Section finditer.
Context (re : Re.regex).

Lemma finditer_from_sound (s : string) (skip : nat) (prev : option ascii)
    (pos a b : nat) :
  (a, b) ∈ Re.finditer_from re skip prev pos s →
  ∃ k ps, a = (pos + k)%nat ∧ (skip <= k <= String.length s)%nat
          ∧ Re.matches (Re.re_flags re) (Re.re_atoms re) (Re.prev_at prev s k)
              (Py.drop_str k s) ps
          ∧ b = (a + Re.span_len ps)%nat.
Proof.
  revert skip prev pos. induction s as [|c s IH]; intros skip prev pos; simpl.
  - destruct skip as [|skip]; [|by intros ?%elem_of_nil].
    destruct (Re.m_atoms _ _ prev "") as [ps|] eqn:Hm;
      [|by intros ?%elem_of_nil].
    intros [= -> ->]%list_elem_of_singleton.
    exists 0%nat, ps. apply m_atoms_sound in Hm.
    pose proof (matches_prefix _ _ _ _ _ Hm) as (t & _ & Hlen).
    simpl in Hlen. repeat split; try done; lia.
  - assert (Hnext : ∀ skip', (a, b) ∈ Re.finditer_from re skip' (Some c)
                                        (S pos) s →
              ∃ k ps, a = (pos + k)%nat
                ∧ (S skip' <= k <= S (String.length s))%nat
                ∧ Re.matches (Re.re_flags re) (Re.re_atoms re)
                    (Re.prev_at prev (String c s) k)
                    (Py.drop_str k (String c s)) ps
                ∧ b = (a + Re.span_len ps)%nat).
    { intros skip' (k & ps & -> & Hk & Hm & ->)%IH.
      exists (S k), ps. repeat split; try done; lia. }
    destruct skip as [|skip]; [|apply Hnext].
    destruct (Re.m_atoms _ _ prev (String c s)) as [ps|] eqn:Hm.
    + intros [[= -> ->]|Hin]%elem_of_cons.
      * exists 0%nat, ps. apply m_atoms_sound in Hm.
        repeat split; try done; lia.
      * destruct (Hnext _ Hin) as (k & ps' & ? & ? & ? & ?).
        exists k, ps'. repeat split; try done; lia.
    + intros Hin. destruct (Hnext _ Hin) as (k & ps' & ? & ? & ? & ?).
      exists k, ps'. repeat split; try done; lia.
Qed.

Lemma finditer_from_sorted (s : string) (skip : nat) (prev : option ascii)
    (pos : nat) :
  StronglySorted (λ x y : nat * nat, (x.2 <= y.1)%nat ∧ (x.1 < y.1)%nat)
    (Re.finditer_from re skip prev pos s).
Proof.
  revert skip prev pos. induction s as [|c s IH]; intros skip prev pos; simpl.
  - destruct skip; [|constructor].
    destruct (Re.m_atoms _ _ prev ""); repeat constructor.
  - destruct skip as [|skip]; [|apply IH].
    destruct (Re.m_atoms _ _ prev (String c s)) as [ps|]; [|apply IH].
    constructor; [apply IH|].
    apply Forall_forall. intros [a b] Hin.
    apply finditer_from_sound in Hin as (k & _ & -> & Hk & _). simpl. lia.
Qed.

Lemma finditer_from_complete (s : string) (skip : nat) (prev : option ascii)
    (pos k : nat) (ps : list string) :
  (skip <= k <= String.length s)%nat →
  Re.matches (Re.re_flags re) (Re.re_atoms re) (Re.prev_at prev s k)
    (Py.drop_str k s) ps →
  ∃ a b, (a, b) ∈ Re.finditer_from re skip prev pos s
         ∧ (a <= pos + k)%nat ∧ ((pos + k)%nat = a ∨ (pos + k < b)%nat).
Proof.
  revert skip prev pos k. induction s as [|c s IH]; intros skip prev pos k Hk Hm.
  - simpl in Hk. assert (k = 0%nat) as -> by lia.
    assert (skip = 0%nat) as -> by lia. simpl in *.
    destruct (m_atoms_complete _ _ _ _ _ Hm) as [r ->].
    exists pos, pos. split; [by left|]. lia.
  - assert (Hnext : ∀ skip' k', k = S k' → (skip' <= k')%nat →
              ∃ a b, (a, b) ∈ Re.finditer_from re skip' (Some c) (S pos) s
                     ∧ (a <= pos + k)%nat
                     ∧ ((pos + k)%nat = a ∨ (pos + k < b)%nat)).
    { intros skip' k' -> Hk'. simpl in Hk, Hm.
      destruct (IH skip' (Some c) (S pos) k' ltac:(lia) Hm)
        as (a & b & Hin & Ha & Hb).
      exists a, b. split; [done|]. lia. }
    simpl. destruct skip as [|skip].
    + destruct (Re.m_atoms _ _ prev (String c s)) as [ps0|] eqn:Hm0.
      * destruct (decide (k < Re.span_len ps0 ∨ k = 0)%nat) as [Hin|Hout].
        { exists pos, (pos + Re.span_len ps0)%nat. split; [by left|]. lia. }
        destruct k as [|k']; [lia|].
        destruct (Hnext (Nat.pred (Re.span_len ps0)) k' eq_refl ltac:(lia))
          as (a & b & Hin & Ha & Hb).
        exists a, b. split; [by right|]. lia.
      * destruct k as [|k'].
        { simpl in Hm. destruct (m_atoms_complete _ _ _ _ _ Hm) as [r Hr].
          congruence. }
        apply (Hnext 0%nat k' eq_refl). lia.
    + destruct k as [|k']; [lia|]. apply (Hnext skip k' eq_refl). lia.
Qed.

(** The spans of [finditer] are the leftmost matches of the pattern. *)
Lemma finditer_leftmost (text : string) :
  Re.leftmost (Re.match_at re text) (Re.finditer re text).
Proof.
  unfold Re.finditer. split; [|split].
  - intros s e (k & ps & -> & Hk & Hm & ->)%finditer_from_sound.
    split; [simpl; lia|]. by exists ps.
  - apply finditer_from_sorted.
  - intros p e (Hp & ps & Hm & ->).
    destruct (finditer_from_complete text 0 None 0 p ps ltac:(lia) Hm)
      as (a & b & Hin & Ha & Hb).
    exists a, b. split; [done|]. simpl in *. lia.
Qed.

End finditer.

(** ** Headers and separators *)

Lemma matches_nil_inv (f : Re.flags) prev s ps :
  Re.matches f [] prev s ps → ps = [].
Proof. by inversion 1. Qed.

Lemma matches_bol_inv (f : Re.flags) rest prev s ps :
  Re.matches f (Re.Bol :: rest) prev s ps →
  Re.at_bol f prev = true ∧ ∃ ps', ps = "" :: ps' ∧ Re.matches f rest prev s ps'.
Proof. inversion 1; subst. eauto. Qed.

Lemma matches_eol_inv (f : Re.flags) rest prev s ps :
  Re.matches f (Re.Eol :: rest) prev s ps →
  Re.at_eol f s = true ∧ ∃ ps', ps = "" :: ps' ∧ Re.matches f rest prev s ps'.
Proof. inversion 1; subst. eauto. Qed.

Lemma matches_one_inv (f : Re.flags) k rest prev s ps :
  Re.matches f (Re.One k :: rest) prev s ps →
  ∃ c s' ps', s = String c s' ∧ ps = String c "" :: ps'
              ∧ Re.cls_match f k c = true ∧ Re.matches f rest (Some c) s' ps'.
Proof. inversion 1; subst. eauto 10. Qed.

Lemma matches_star_inv (f : Re.flags) k rest prev s ps :
  Re.matches f (Re.Star k :: rest) prev s ps →
  ∃ w s' ps', s = w +:+ s' ∧ ps = w :: ps'
              ∧ Py.all_chars (Re.cls_match f k) w = true
              ∧ Re.matches f rest (Re.last_or prev w) s' ps'.
Proof. inversion 1; subst. eauto 10. Qed.

Lemma matches_plus_inv (f : Re.flags) k rest prev s ps :
  Re.matches f (Re.Plus k :: rest) prev s ps →
  ∃ w s' ps', s = w +:+ s' ∧ ps = w :: ps' ∧ w ≠ ""
              ∧ Py.all_chars (Re.cls_match f k) w = true
              ∧ Re.matches f rest (Re.last_or prev w) s' ps'.
Proof. inversion 1; subst. eauto 10. Qed.

Lemma string_app_nil_l (a : string) : "" +:+ a = a.
Proof. reflexivity. Qed.

Lemma lower_colon (c : ascii) : Re.lower c = ":"%char → c = ":"%char.
Proof.
  destruct c as [[] [] [] [] [] [] [] []]; vm_compute; intros H;
    first [reflexivity | discriminate H].
Qed.

Lemma at_bol_line_start (i : bool) (text : string) (s : nat) :
  Re.at_bol (Re.Flags i true) (Re.prev_at None text s) = true
  ↔ Tts.line_start text s.
Proof.
  unfold Re.at_bol, Tts.line_start.
  destruct (Re.prev_at None text s) as [c|]; simpl; [|done].
  apply bool_decide_eq_true.
Qed.

Lemma at_eol_line_end (i : bool) (rest : string) :
  Re.at_eol (Re.Flags i true) rest = true ↔ Tts.line_end rest.
Proof.
  unfold Re.at_eol, Tts.line_end. destruct rest as [|c r]; simpl.
  - split; auto.
  - rewrite andb_true_r, bool_decide_eq_true. split.
    + intros ->. right. by eexists.
    + intros [?|[r' [= -> _]]]; done.
Qed.

Lemma all_dot_no_newline (f : Re.flags) (tail : string) :
  Py.all_chars (Re.cls_match f Re.CDot) tail = true
  ↔ Py.contains Re.nl tail = false.
Proof.
  induction tail as [|c tail IH]; simpl; [done|].
  destruct (decide (c = Re.nl)) as [->|Hc].
  - by rewrite bool_decide_eq_true_2.
  - by rewrite bool_decide_eq_false_2.
Qed.

Lemma drop_str_nonempty (k : nat) (s : string) :
  Py.drop_str k s ≠ "" → (k <= String.length s)%nat.
Proof.
  revert s. induction k as [|k IH]; intros s; [lia|].
  destruct s as [|c s]; [done|]. simpl. intros H%IH. lia.
Qed.

(** The headers in words are the matches of [header_re]. *)
Lemma header_at_match (text : string) (s e : nat) :
  Tts.header_at text s e ↔ Re.match_at Tts.header_re text s e.
Proof.
  unfold Tts.header_at, Re.match_at. split.
  - intros (Hs & Hstart & sp1 & word & sp2 & ds & sp3 & tail & rest & Hdrop
            & H1 & Hword & H2 & Hne2 & H3 & Hne3 & H4 & Htail & Hend & ->).
    split; [done|].
    destruct word as [|c1 [|c2 [|c3 [|c4 [|c5 [|c6 word]]]]]];
      try discriminate Hword.
    injection Hword as L1 L2 L3 L4 L5.
    exists [""; sp1; String c1 ""; String c2 ""; String c3 ""; String c4 "";
            String c5 ""; sp2; ds; sp3; ":"; tail; ""].
    split.
    + rewrite Hdrop. cbv [Tts.header_re Re.re_atoms Re.re_flags Re.lits app].
      apply Re.matches_bol; [by apply at_bol_line_start|].
      apply Re.matches_star; [done|].
      rewrite !string_app_cons, !string_app_nil_l.
      do 5 (apply Re.matches_one; [simpl; by apply bool_decide_eq_true|]).
      apply Re.matches_plus; [done..|].
      apply Re.matches_plus; [done..|].
      apply Re.matches_star; [done|].
      apply Re.matches_one; [done|].
      apply Re.matches_star; [by apply all_dot_no_newline|].
      apply Re.matches_eol; [by apply at_eol_line_end|].
      constructor.
    + simpl. rewrite ?string_app_length. simpl. rewrite ?string_app_length.
      simpl. lia.
  - intros (Hs & ps & Hm & ->).
    cbv [Tts.header_re Re.re_atoms Re.re_flags Re.lits app] in Hm.
    apply matches_bol_inv in Hm as (Hbol & ps1 & -> & Hm).
    apply matches_star_inv in Hm as (sp1 & s1 & ps2 & Hdrop & -> & H1 & Hm).
    apply matches_one_inv in Hm as (c1 & s2 & ps3 & -> & -> & L1 & Hm).
    apply matches_one_inv in Hm as (c2 & s3 & ps4 & -> & -> & L2 & Hm).
    apply matches_one_inv in Hm as (c3 & s4 & ps5 & -> & -> & L3 & Hm).
    apply matches_one_inv in Hm as (c4 & s5 & ps6 & -> & -> & L4 & Hm).
    apply matches_one_inv in Hm as (c5 & s6 & ps7 & -> & -> & L5 & Hm).
    apply matches_plus_inv in Hm as (sp2 & s7 & ps8 & -> & -> & Hne2 & H2 & Hm).
    apply matches_plus_inv in Hm as (ds & s8 & ps9 & -> & -> & Hne3 & H3 & Hm).
    apply matches_star_inv in Hm as (sp3 & s9 & ps10 & -> & -> & H4 & Hm).
    apply matches_one_inv in Hm as (c6 & s10 & ps11 & -> & -> & L6 & Hm).
    apply matches_star_inv in Hm as (tail & rest & ps12 & -> & -> & Htail & Hm).
    apply matches_eol_inv in Hm as (Heol & ps13 & -> & Hm).
    apply matches_nil_inv in Hm as ->.
    simpl in L1, L2, L3, L4, L5, L6.
    apply bool_decide_eq_true in L1, L2, L3, L4, L5, L6.
    apply lower_colon in L6 as ->.
    split; [done|]. split; [by eapply at_bol_line_start|].
    exists sp1, (String c1 (String c2 (String c3 (String c4 (String c5 ""))))),
      sp2, ds, sp3, tail, rest.
    split; [exact Hdrop|]. split; [done|].
    split; [simpl; by rewrite L1, L2, L3, L4, L5|].
    repeat (split; [done|]).
    split; [by eapply all_dot_no_newline|].
    split; [by eapply at_eol_line_end|].
    simpl. rewrite ?string_app_length. simpl. rewrite ?string_app_length.
    simpl. lia.
Qed.

(** The separators in words are the matches of [sep_re]. *)
Lemma separator_at_match (text : string) (s e : nat) :
  Tts.separator_at text s e ↔ Re.match_at Tts.sep_re text s e.
Proof.
  unfold Tts.separator_at, Re.match_at. split.
  - intros (Hs & Hstart & sp1 & sp2 & rest & Hdrop & H1 & H2 & Hend & ->).
    split; [done|].
    exists [""; sp1; "-"; "-"; "-"; sp2; ""]. split.
    + rewrite Hdrop. cbv [Tts.sep_re Re.re_atoms Re.re_flags Re.lits app].
      apply Re.matches_bol; [by apply at_bol_line_start|].
      apply Re.matches_star; [done|].
      rewrite !string_app_cons, !string_app_nil_l.
      do 3 (apply Re.matches_one; [done|]).
      apply Re.matches_star; [done|].
      apply Re.matches_eol; [by apply at_eol_line_end|].
      constructor.
    + simpl. rewrite ?string_app_length. simpl. rewrite ?string_app_length.
      simpl. lia.
  - intros (Hs & ps & Hm & ->).
    cbv [Tts.sep_re Re.re_atoms Re.re_flags Re.lits app] in Hm.
    apply matches_bol_inv in Hm as (Hbol & ps1 & -> & Hm).
    apply matches_star_inv in Hm as (sp1 & s1 & ps2 & Hdrop & -> & H1 & Hm).
    apply matches_one_inv in Hm as (c1 & s2 & ps3 & -> & -> & L1 & Hm).
    apply matches_one_inv in Hm as (c2 & s3 & ps4 & -> & -> & L2 & Hm).
    apply matches_one_inv in Hm as (c3 & s4 & ps5 & -> & -> & L3 & Hm).
    apply matches_star_inv in Hm as (sp2 & rest & ps6 & -> & -> & H2 & Hm).
    apply matches_eol_inv in Hm as (Heol & ps7 & -> & Hm).
    apply matches_nil_inv in Hm as ->.
    simpl in L1, L2, L3. apply bool_decide_eq_true in L1, L2, L3. subst.
    split; [done|]. split; [by eapply at_bol_line_start|].
    exists sp1, sp2, rest.
    split; [exact Hdrop|]. repeat (split; [done|]).
    split; [by eapply at_eol_line_end|].
    simpl. rewrite ?string_app_length. simpl. rewrite ?string_app_length.
    simpl. lia.
Qed.

Lemma leftmost_iff (P Q : nat → nat → Prop) (spans : list (nat * nat)) :
  (∀ s e, P s e ↔ Q s e) → Re.leftmost P spans → Re.leftmost Q spans.
Proof.
  intros HPQ (Hall & Hsorted & Hcover). split; [|split].
  - intros s e Hin. by apply HPQ, Hall.
  - done.
  - intros p e HQ. by apply (Hcover p e), HPQ.
Qed.

(** ** Segmentation *)

Lemma lstrip_all_space (p : ascii → bool) (s : string) :
  Py.all_chars p s = true → Py.lstrip_by p s = "".
Proof.
  induction s as [|c s IH]; [done|]. simpl.
  intros [-> Hs]%andb_true_iff. auto.
Qed.

Lemma strip_all_space (s : string) :
  Py.all_chars Py.is_space s = true → Py.strip s = "".
Proof.
  intros Hs. unfold Py.strip, Py.strip_by. by rewrite lstrip_all_space.
Qed.

Lemma split_at_length (text : string) (last : nat) (spans : list (nat * nat)) :
  length (Re.split_at text last spans) = S (length spans).
Proof.
  revert last. induction spans as [|[s e] spans IH]; intros last; simpl;
    [done|]. by rewrite IH.
Qed.

Lemma split_at_lookup (text : string) (last : nat) (spans : list (nat * nat))
    (i : nat) :
  (i <= length spans)%nat →
  Re.split_at text last spans !! i
  = Some (Py.slice text
            (match i with O => last | S _ => Tts.prev_end spans i end)
            (Tts.span_start text spans i)).
Proof.
  revert last i. induction spans as [|[s e] spans IH]; intros last i Hi.
  - simpl in Hi. by assert (i = 0%nat) as -> by lia.
  - destruct i as [|i]; [done|]. simpl in Hi.
    cbn [Re.split_at]. rewrite lookup_cons. rewrite IH by lia.
    unfold Tts.span_start. rewrite lookup_cons.
    by destruct i.
Qed.

Lemma leftmost_nonempty (P : nat → nat → Prop) (spans : list (nat * nat)) :
  Re.leftmost P spans → (spans ≠ [] ↔ ∃ s e, P s e).
Proof.
  intros (Hall & _ & Hcover). split.
  - destruct spans as [|[s e] spans]; [done|]. intros _.
    exists s, e. apply Hall. by left.
  - intros (p & e & HP) ->.
    destruct (Hcover p e HP) as (s & e' & Hin & _). by apply elem_of_nil in Hin.
Qed.

(** C2, as stated, fails on the text Slide1:a. It has a header in the
    words of the claim, from position 0 to position 8, after which nothing
    follows, so that the claim has the single entry "" for it. The code
    requires whitespace between Slide and the digits, finds no header,
    splits on the separator lines instead and returns the text itself. *)
Lemma stated_header_counterexample :
  let text := "Slide1:a" in
  Tts.stated_header_at text 0 8
  ∧ Py.strip (Py.slice text 8 (String.length text)) = ""
  ∧ Re.finditer Tts.header_re text = []
  ∧ Tts.split_text_by_slides text = ["Slide1:a"]
  ∧ Tts.split_text_by_slides text
    ≠ [Py.strip (Py.slice text 8 (String.length text))].
Proof.
  intros text. split; [|by repeat split].
  split; [simpl; lia|]. split; [done|].
  exists "", "Slide", "1", "a", "". repeat split; try done. by left.
Qed.

(** C2, amended. A header is, at the start of a line: optional whitespace,
    the word Slide in any case, at least one whitespace character, digits,
    optional whitespace, a colon and the rest of the line. The headers the
    code finds are the leftmost occurrences of it, in the order of the
    text. If there is at least one, [split_text_by_slides] returns one entry
    per header, in that order: the trimmed text between the end of the
    header and the start of the next one (or the end of the text), kept as
    the empty string when it is all whitespace. If there is none, the text
    is split at the separator lines, three dashes with only whitespace
    around, and the trimmed parts that are not empty are returned. *)
Theorem split_text_by_slides_modes (text : string) :
  let headers := Re.finditer Tts.header_re text in
  let seps := Re.finditer Tts.sep_re text in
  let parts := Re.split Tts.sep_re text in
  let slides := Tts.split_text_by_slides text in
  Re.leftmost (Tts.header_at text) headers
  ∧ (headers ≠ [] ↔ ∃ s e, Tts.header_at text s e)
  ∧ (headers ≠ [] →
     length slides = length headers
     ∧ ∀ i m, headers !! i = Some m →
         let body := Py.slice text m.2 (Tts.span_start text headers (S i)) in
         slides !! i = Some (Py.strip body)
         ∧ (Py.all_chars Py.is_space body = true → slides !! i = Some ""))
  ∧ (headers = [] →
     Re.leftmost (Tts.separator_at text) seps
     ∧ length parts = S (length seps)
     ∧ (∀ i, (i <= length seps)%nat →
          parts !! i = Some (Py.slice text (Tts.prev_end seps i)
                               (Tts.span_start text seps i)))
     ∧ slides = filter (λ p, p ≠ "") (Py.strip <$> parts)
     ∧ ∀ p, p ∈ slides → p ≠ "").
Proof.
  intros headers seps parts slides.
  assert (Hleft : Re.leftmost (Tts.header_at text) headers).
  { eapply leftmost_iff; [|apply finditer_leftmost].
    intros s e. symmetry. apply header_at_match. }
  split; [done|]. split; [by apply leftmost_nonempty|]. split.
  - intros Hne.
    assert (Hslides : slides = imap (Tts.header_slide text headers) headers).
    { subst slides. unfold Tts.split_text_by_slides. fold headers.
      by destruct headers. }
    rewrite Hslides. split; [apply length_imap|].
    intros i m Hm body. rewrite list_lookup_imap, Hm. simpl.
    assert (Hbody : Tts.header_slide text headers i m = Py.strip body) by done.
    rewrite Hbody. split; [done|].
    intros Hsp. by rewrite strip_all_space.
  - intros Hnil.
    assert (Hslides : slides = filter (λ p, p ≠ "") (Py.strip <$> parts)).
    { subst slides. unfold Tts.split_text_by_slides. fold headers.
      by rewrite Hnil. }
    split.
    { eapply leftmost_iff; [|apply finditer_leftmost].
      intros s e. symmetry. apply separator_at_match. }
    split; [apply split_at_length|]. split.
    { intros i Hi. unfold parts, Re.split. fold seps.
      rewrite split_at_lookup by done. by destruct i. }
    split; [done|].
    intros p. rewrite Hslides. by intros [? _]%list_elem_of_filter.
Qed.

Lemma split_text_by_slides_modes_witness :
  let text := "Slide 1: Opening" +:+ String Re.nl "Hello"
              +:+ String Re.nl "Slide 2: Pause" +:+ String Re.nl "  "
              +:+ String Re.nl "Slide 3: End" +:+ String Re.nl "Bye" in
  Re.finditer Tts.header_re text = [(0, 16); (23, 37); (38, 53)]%nat
  ∧ Tts.split_text_by_slides text !! 1%nat = Some "".
Proof.
  intros text.
  assert (Hh : Re.finditer Tts.header_re text
               = [(0, 16); (23, 37); (38, 53)]%nat) by (vm_compute; reflexivity).
  split; [exact Hh|].
  destruct (split_text_by_slides_modes text) as (_ & _ & Hmode & _).
  destruct Hmode as [_ Hentries]; [by rewrite Hh|].
  refine (proj2 (Hentries 1%nat (23, 37)%nat _) _).
  - by rewrite Hh.
  - vm_compute. reflexivity.
Defined.

(** ** Range tokens *)

Lemma str_shape (a : Z) :
  ∃ c d, Py.str a = String c d ∧ Py.is_space c = false
         ∧ Py.contains "," (Py.str a) = false
         ∧ ∀ x, Py.last_char (Py.str a) = Some x → Py.is_space x = false.
Proof.
  destruct (decide (0 ≤ a)) as [Ha|Ha].
  - destruct (str_nonneg a Ha) as (Hall & Hne & _).
    destruct (numeral_ends _ Hall Hne) as (c & d & Heq & Hc & Hlast).
    exists c, d.
    split; [done|]. split; [by apply digit_other|]. split.
    + by apply (contains_all_chars Py.is_digit).
    + intros x Hx. by apply digit_other, Hlast.
  - destruct (str_neg a ltac:(lia)) as (d & Heq & Hall & Hne).
    exists "-"%char, d. rewrite Heq.
    split; [done|]. split; [done|]. split.
    + simpl. by apply (contains_all_chars Py.is_digit).
    + intros x. change (String "-" d) with ("-" +:+ d).
      rewrite last_char_app by done. intros Hx.
      by apply digit_other, (last_char_all_chars Py.is_digit d).
Qed.

Lemma range_token_shape (a b : Z) :
  Py.strip (range_token a b) = range_token a b
  ∧ range_token a b ≠ ""
  ∧ Py.split_on "," (range_token a b) = [range_token a b]
  ∧ Py.contains "-" (range_token a b) = true.
Proof.
  destruct (str_shape a) as (ca & da & Ha & Hca & Hcomma_a & _).
  destruct (str_shape b) as (cb & db & Hb & _ & Hcomma_b & Hlast_b).
  unfold range_token. repeat split.
  - rewrite Ha. rewrite string_app_cons. apply strip_by_id; [done|].
    rewrite <- string_app_cons, <- Ha. intros x.
    rewrite !last_char_app by (by rewrite ?Hb). apply Hlast_b.
  - by rewrite Ha.
  - apply split_on_absent. rewrite !contains_app, Hcomma_a, Hcomma_b. done.
  - rewrite !contains_app. simpl. by rewrite orb_true_r.
Qed.

Lemma scan_single_token (ok : Z → bool) (a b : Z) :
  scan ok (range_token a b) = scan_token ok pstate_init (range_token a b).
Proof.
  unfold scan. by rewrite (proj1 (proj2 (proj2 (range_token_shape a b)))).
Qed.

(** The range token of two non-negative integers selects the indices from
    the smaller to the larger one. *)
Lemma scan_range_token (ok : Z → bool) (a b : Z) :
  0 ≤ a → 0 ≤ b →
  scan ok (range_token a b)
  = foldl (λ st i, if ok i then select i st else reject (Py.str i) st)
      pstate_init (Py.range_incl (Z.min a b) (Z.max a b)).
Proof.
  intros Ha Hb. rewrite scan_single_token. unfold scan_token.
  destruct (range_token_shape a b) as (-> & Hne & _ & ->).
  rewrite decide_False by done.
  destruct (str_nonneg a Ha) as (Hall_a & Hne_a & _).
  destruct (str_nonneg b Hb) as (Hall_b & Hne_b & _).
  assert (Py.split1 "-" (range_token a b) = (Py.str a, Py.str b)) as ->.
  { apply split1_app, (contains_all_chars Py.is_digit); done. }
  rewrite (proj1 (strip_numeral _ Hall_a Hne_a)).
  rewrite (proj1 (strip_numeral _ Hall_b Hne_b)).
  rewrite !int_of_string_str by done.
  destruct (Z.ltb_spec b a).
  - by rewrite Z.min_r, Z.max_l by lia.
  - by rewrite Z.min_l, Z.max_r by lia.
Qed.

(** A range token that starts with a negative integer is rejected as a
    whole: it is split at its first dash, the sign. *)
Lemma scan_negative_token (ok : Z → bool) (a b : Z) :
  a < 0 →
  scan ok (range_token a b) = reject (range_token a b) pstate_init.
Proof.
  intros Ha. rewrite scan_single_token. unfold scan_token.
  destruct (range_token_shape a b) as (-> & Hne & _ & ->).
  rewrite decide_False by done.
  destruct (str_neg a Ha) as (d & Hd & _).
  assert (Py.split1 "-" (range_token a b) = ("", d +:+ "-" +:+ Py.str b))
    as -> by (unfold range_token; by rewrite Hd).
  done.
Qed.

Lemma foldl_select_selected (ok : Z → bool) (l : list Z) (st : pstate) :
  selected (foldl (λ st i, if ok i then select i st else reject (Py.str i) st)
              st l)
  = selected st ∪ list_to_set (filter (λ i, ok i = true) l).
Proof.
  revert st. induction l as [|i l IH]; intros st; simpl.
  - by rewrite union_empty_r_L.
  - rewrite IH, filter_cons. destruct (ok i) eqn:Hi; simpl; [|done].
    by rewrite (assoc_L (∪)), (comm_L (∪) {[i]}).
Qed.

Lemma tts_parse_selected (s : string) (total : Z) :
  s ≠ "" →
  (Tts._parse_slides_option (Some s) total).1
  = if decide (selected (scan (Tts.in_bounds total) s) = ∅)
    then Py.all_indices total
    else selected (scan (Tts.in_bounds total) s).
Proof.
  intros Hs. destruct s as [|c s]; [done|].
  unfold Tts._parse_slides_option.
  destruct (decide (selected _ = ∅)); [done|].
  by destruct (decide (invalid_tokens _ = [])).
Qed.

Lemma merge_parse_selected (s : string) (hint : option Z) :
  s ≠ "" →
  (Merge._parse_slides_option (Some s) hint).1
  = selected (scan Merge.at_least_one s).
Proof. intros Hs. by destruct s as [|c s]. Qed.

(** C8, as stated, fails for the integers -1 and 3 with ten slides: "-1-3"
    is split at its first dash and rejected, so that the bounded parser
    falls back to all ten slides and the unbounded one selects nothing,
    while "3--1" selects the slides 1 to 3 in both. *)
Lemma range_token_counterexample :
  (Tts._parse_slides_option (Some (range_token (-1) 3)) 10).1
  ≠ (Tts._parse_slides_option (Some (range_token 3 (-1))) 10).1
  ∧ (Merge._parse_slides_option (Some (range_token (-1) 3)) None).1
    ≠ (Merge._parse_slides_option (Some (range_token 3 (-1))) None).1.
Proof. split; intros H; vm_compute in H; discriminate. Qed.

(** C8, amended. For all integers A and B of the same sign (both
    non-negative, or both negative) and any upper bound, parsing the range
    token "A-B" yields the same selection set as parsing "B-A", in the
    bounded parser and in the unbounded one; for non-negative A and B the
    range expanded is the one from the smaller to the larger endpoint. *)
Theorem range_token_order_independent (a b total : Z) (hint : option Z) :
  (a <? 0) = (b <? 0) →
  (Tts._parse_slides_option (Some (range_token a b)) total).1
  = (Tts._parse_slides_option (Some (range_token b a)) total).1
  ∧ (Merge._parse_slides_option (Some (range_token a b)) hint).1
    = (Merge._parse_slides_option (Some (range_token b a)) hint).1
  ∧ (0 ≤ a → 0 ≤ b → ∀ ok,
       selected (scan ok (range_token a b))
       = list_to_set (filter (λ i, ok i = true)
                        (Py.range_incl (Z.min a b) (Z.max a b)))).
Proof.
  intros Hsign.
  assert (Hscan : ∀ ok, selected (scan ok (range_token a b))
                        = selected (scan ok (range_token b a))).
  { intros ok. destruct (Z.ltb_spec a 0) as [Ha|Ha];
      destruct (Z.ltb_spec b 0) as [Hb|Hb]; try discriminate.
    - by rewrite !scan_negative_token.
    - by rewrite !scan_range_token, Z.min_comm, Z.max_comm. }
  split; [|split].
  - rewrite !tts_parse_selected by apply range_token_shape.
    by rewrite Hscan.
  - rewrite !merge_parse_selected by apply range_token_shape. apply Hscan.
  - intros Ha Hb ok. rewrite scan_range_token, foldl_select_selected by done.
    apply union_empty_l_L.
Qed.

Lemma range_token_order_independent_witness :
  (Tts._parse_slides_option (Some (range_token 5 3)) 10).1
  = (Tts._parse_slides_option (Some (range_token 3 5)) 10).1
  ∧ (Merge._parse_slides_option (Some (range_token 5 3)) None).1
    = (Merge._parse_slides_option (Some (range_token 3 5)) None).1.
Proof.
  destruct (range_token_order_independent 5 3 10 None eq_refl)
    as (H1 & H2 & _).
  exact (conj H1 H2).
Defined.

(** ** Slide selection in [tts_openai.py] *)

Lemma parse_fallback_output (s : string) (total : Z) :
  s ≠ EmptyString →
  selected (scan (Tts.in_bounds total) s) = ∅ →
  Tts._parse_slides_option (Some s) total
  = (Py.all_indices total, [Tts.WarnNoneSelected]).
Proof.
  intros Hs Hsel. unfold Tts._parse_slides_option.
  destruct s as [|c s']; [done|].
  by rewrite decide_True.
Qed.

Lemma none_selected_reports_nothing (t : string) :
  ¬ Tts.reported t [Tts.WarnNoneSelected].
Proof.
  intros (tokens & Hin & _).
  apply list_elem_of_singleton in Hin. discriminate.
Qed.

(** Outside the fallback every rejected token is reported. *)
Lemma parse_reports_rejected (s : string) (total : Z) (t : string) :
  s ≠ EmptyString →
  selected (scan (Tts.in_bounds total) s) ≠ ∅ →
  t ∈ invalid_tokens (scan (Tts.in_bounds total) s) →
  Tts.reported t (Tts._parse_slides_option (Some s) total).2.
Proof.
  intros Hs Hsel Ht. unfold Tts._parse_slides_option.
  destruct s as [|c s']; [done|].
  rewrite decide_False by done.
  destruct (decide (invalid_tokens _ = [])) as [Hnil|_].
  - rewrite Hnil in Ht. by apply elem_of_nil in Ht.
  - eexists. split; [by apply list_elem_of_singleton|done].
Qed.

(** C1. Parsing "0,11" for ten slides rejects both tokens, selects nothing
    and falls back to all indices 1..10; the only line printed is the
    warning that nothing was selected, so neither "0" nor "11" is reported:
    the return of the fallback comes before the report of the rejected
    tokens. *)
Theorem parse_fallback_reports_no_rejected_token :
  let out := Tts._parse_slides_option (Some "0,11") 10 in
  invalid_tokens (scan (Tts.in_bounds 10) "0,11") = ["0"; "11"]
  ∧ out.1 = Py.all_indices 10
  ∧ out.2 = [Tts.WarnNoneSelected]
  ∧ ¬ Tts.reported "0" out.2 ∧ ¬ Tts.reported "11" out.2.
Proof.
  assert (Hout : Tts._parse_slides_option (Some "0,11") 10
                 = (Py.all_indices 10, [Tts.WarnNoneSelected])).
  { apply parse_fallback_output; [done|]. by vm_compute. }
  cbv zeta. rewrite Hout. simpl.
  split; [by vm_compute|].
  repeat split; auto using none_selected_reports_nothing.
Qed.

(** ** The stable sort *)

Section sorted.
Context {A : Type} (leb : A → A → bool).

Lemma insert_sorted_perm (x : A) (l : list A) :
  Py.insert_sorted leb x l ≡ₚ x :: l.
Proof.
  induction l as [|y l IH]; simpl; [done|].
  destruct (leb x y); [done|].
  rewrite IH. apply Permutation_swap.
Qed.

Lemma sorted_perm (l : list A) : Py.sorted leb l ≡ₚ l.
Proof.
  unfold Py.sorted.
  induction l as [|x l IH]; simpl; [done|].
  by rewrite insert_sorted_perm, IH.
Qed.

Hypothesis leb_total : ∀ a b, leb a b = false → leb b a = true.
Hypothesis leb_trans : ∀ a b c, leb a b = true → leb b c = true → leb a c = true.

Lemma insert_sorted_strongly (x : A) (l : list A) :
  StronglySorted (λ a b, leb a b = true) l →
  StronglySorted (λ a b, leb a b = true) (Py.insert_sorted leb x l).
Proof.
  induction 1 as [|y l Hl IH Hy]; simpl.
  - repeat constructor.
  - destruct (leb x y) eqn:Hxy.
    + constructor; [by constructor|].
      constructor; [done|].
      eapply Forall_impl; [exact Hy|]. intros z Hz. by eapply leb_trans.
    + constructor; [done|].
      rewrite insert_sorted_perm. constructor; [by apply leb_total|done].
Qed.

Lemma sorted_strongly (l : list A) :
  StronglySorted (λ a b, leb a b = true) (Py.sorted leb l).
Proof.
  unfold Py.sorted.
  induction l as [|x l IH]; simpl; [constructor|].
  by apply insert_sorted_strongly.
Qed.

End sorted.


Lemma StronglySorted_weaken {A : Type} (R S : relation A) (l : list A) :
  (∀ a b, R a b → S a b) → StronglySorted R l → StronglySorted S l.
Proof.
  intros HRS. induction 1 as [|x l Hl IH Hx]; constructor; [done|].
  eapply Forall_impl; [exact Hx|]. auto.
Qed.


(** ** The synthesis loop *)

Lemma elem_of_all_indices (total i : Z) :
  i ∈ Py.all_indices total ↔ 1 ≤ i ≤ total.
Proof.
  unfold Py.all_indices, Py.range_incl.
  rewrite elem_of_list_to_set, elem_of_seqZ. lia.
Qed.

Lemma foldl_select_ok (ok : Z → bool) (l : list Z) (st : pstate) :
  (∀ i, i ∈ selected st → ok i = true) →
  ∀ i, i ∈ selected
             (foldl (λ st i, if ok i then select i st else reject (Py.str i) st)
                st l) →
       ok i = true.
Proof.
  intros Hst i. rewrite foldl_select_selected.
  intros [?|Hi]%elem_of_union; [auto|].
  apply elem_of_list_to_set, list_elem_of_filter in Hi. tauto.
Qed.

Lemma scan_token_ok (ok : Z → bool) (st : pstate) (raw : string) :
  (∀ i, i ∈ selected st → ok i = true) →
  ∀ i, i ∈ selected (scan_token ok st raw) → ok i = true.
Proof.
  intros Hst. unfold scan_token.
  destruct (decide _); [done|].
  destruct (Py.contains _ _).
  - destruct (Py.split1 _ _) as [start_s end_s].
    destruct (Py.int_of_string _) as [start|]; [|done].
    destruct (Py.int_of_string _) as [end_|]; [|done].
    destruct (end_ <? start); by apply foldl_select_ok.
  - destruct (Py.int_of_string _) as [idx|]; [|done].
    destruct (ok idx) eqn:Hidx; [|done].
    intros i [->%elem_of_singleton|?]%elem_of_union; auto.
Qed.

Lemma scan_ok (ok : Z → bool) (s : string) :
  ∀ i, i ∈ selected (scan ok s) → ok i = true.
Proof.
  unfold scan. generalize (Py.split_on "," s). intros tokens.
  assert (H0 : ∀ i, i ∈ selected pstate_init → ok i = true) by set_solver.
  revert H0. generalize pstate_init.
  induction tokens as [|t tokens IH]; intros st Hst; simpl; [done|].
  apply IH. by apply scan_token_ok.
Qed.

(** The bounded parser only selects indices of slides. *)
Lemma parse_in_bounds (slides_opt : option string) (total i : Z) :
  i ∈ (Tts._parse_slides_option slides_opt total).1 → 1 ≤ i ≤ total.
Proof.
  assert (Hs : ∀ s, i ∈ selected (scan (Tts.in_bounds total) s) →
               1 ≤ i ≤ total).
  { intros s Hi. apply scan_ok in Hi. unfold Tts.in_bounds in Hi. lia. }
  unfold Tts._parse_slides_option.
  destruct slides_opt as [[|c s]|]; simpl;
    try by (intros ?%elem_of_all_indices).
  destruct (decide _); [by intros ?%elem_of_all_indices|].
  destruct (decide _); apply Hs.
Qed.

Lemma selected_indices_spec (slides_opt : option string) (total : Z) :
  let indices := Tts.selected_indices slides_opt total in
  NoDup indices ∧ StronglySorted Z.le indices
  ∧ ∀ i, i ∈ indices ↔ i ∈ (Tts._parse_slides_option slides_opt total).1.
Proof.
  unfold Tts.selected_indices.
  set (sel := (Tts._parse_slides_option slides_opt total).1).
  pose proof (sorted_perm Z.leb (elements sel)) as Hperm.
  split; [|split].
  - rewrite Hperm. apply NoDup_elements.
  - apply (StronglySorted_weaken (λ a b, Z.leb a b = true)).
    { intros a b. apply Z.leb_le. }
    apply sorted_strongly.
    + intros a b. rewrite Z.leb_gt, Z.leb_le. lia.
    + intros a b c. rewrite !Z.leb_le. lia.
  - intros i. by rewrite Hperm, elem_of_elements.
Qed.

Lemma index_in_bounds {A : Type} (l : list A) (i : Z) :
  1 ≤ i ≤ Z.of_nat (length l) → is_Some (Py.index l (i - 1)).
Proof.
  intros Hi. unfold Py.index.
  assert ((0 <=? i - 1) && (i - 1 <? Z.of_nat (length l)) = true) as ->
    by lia.
  apply lookup_lt_is_Some. lia.
Qed.

Lemma text_to_speech_effect (e : Tts.env) (text output_file voice : string)
    (w : Tts.world) :
  let w' := (Tts.text_to_speech e text output_file voice w).2 in
  Tts.requests w' = Tts.requests w ++ [(text, output_file, voice)]
  ∧ ∀ p, p ≠ output_file → Tts.files w' !! p = Tts.files w !! p.
Proof.
  unfold Tts.text_to_speech, Tts.store.
  destruct (Tts.speech e text voice) as [|chunks [|]|bytes| |];
    destruct (Tts.writable e output_file);
    try destruct (Tts.write_fault e output_file _);
    simpl; split; try done;
    intros p Hp; by rewrite lookup_insert_ne.
Qed.

Lemma process_slide_step (e : Tts.env) (slides : list string)
    (output_dir voice : string) (w : Tts.world) (i : Z) (slide_text : string) :
  Py.index slides (i - 1) = Some slide_text →
  Tts.process_slide e slides output_dir voice (Ok (), w) i
  = (Ok (),
     if decide (Py.strip slide_text = "") then w
     else (Tts.text_to_speech e slide_text (Tts.slide_file output_dir i) voice
             (Tts.print (Tts.LProcessing i) w)).2).
Proof.
  intros Ht. unfold Tts.process_slide. rewrite Ht.
  by destruct (decide _).
Qed.

Lemma process_slides_effect (e : Tts.env) (slides : list string)
    (output_dir voice : string) (indices : list Z) (w : Tts.world) :
  (∀ i, i ∈ indices → is_Some (Py.index slides (i - 1))) →
  let r := foldl (Tts.process_slide e slides output_dir voice) (Ok (), w)
             indices in
  r.1 = Ok ()
  ∧ Tts.requests r.2
    = Tts.requests w ++ omap (Tts.spoken slides output_dir voice) indices
  ∧ ∀ p, (∀ q, q ∈ omap (Tts.spoken slides output_dir voice) indices →
              q.1.2 ≠ p) →
         Tts.files r.2 !! p = Tts.files w !! p.
Proof.
  cbv zeta. revert w.
  induction indices as [|i indices IH]; intros w Hidx.
  { simpl. by rewrite app_nil_r. }
  destruct (Hidx i ltac:(by left)) as [slide_text Ht].
  assert (Hrest : ∀ j, j ∈ indices → is_Some (Py.index slides (j - 1)))
    by (intros j Hj; apply Hidx; by right).
  cbn [foldl omap list_omap].
  rewrite (process_slide_step e slides output_dir voice w i slide_text Ht).
  assert (Tts.spoken slides output_dir voice i
          = if decide (Py.strip slide_text = "") then None
            else Some (slide_text, Tts.slide_file output_dir i, voice)) as ->
    by (unfold Tts.spoken; by rewrite Ht).
  destruct (decide (Py.strip slide_text = "")) as [Hempty|Hfull].
  - by apply IH.
  - set (w' := (Tts.text_to_speech e slide_text _ voice _).2).
    destruct (IH w' Hrest) as (Hok & Hreq & Hfiles).
    destruct (text_to_speech_effect e slide_text
                (Tts.slide_file output_dir i) voice
                (Tts.print (Tts.LProcessing i) w)) as [Hreq' Hfiles'].
    fold w' in Hreq', Hfiles'.
    split; [done|]. split.
    + rewrite Hreq, Hreq'. simpl. by rewrite <- app_assoc.
    + intros p Hp. rewrite Hfiles.
      * rewrite Hfiles'; [done|]. intros ->.
        by apply (Hp (slide_text, Tts.slide_file output_dir i, voice));
          [left|].
      * intros q Hq. apply Hp. by right.
Qed.

(** The file names of distinct slides are distinct. *)

Lemma string_app_inj_r (a b c : string) : a +:+ c = b +:+ c → a = b.
Proof.
  intros H.
  assert (Hlen : String.length a = String.length b).
  { apply (f_equal String.length) in H. rewrite !string_app_length in H. lia. }
  revert b H Hlen. induction a as [|x a IH]; intros [|y b] H Hlen;
    try discriminate; [done|].
  rewrite !string_app_cons in H. injection H as -> H.
  f_equal. apply IH; [done|]. simpl in Hlen. lia.
Qed.

Lemma digit_val_bound (c : ascii) : 0 ≤ default 0 (Py.digit_val c) ≤ 9.
Proof.
  unfold Py.digit_val.
  destruct (_ && _)%N eqn:Hc; simpl; [|lia].
  apply andb_true_iff in Hc as [?%N.leb_le ?%N.leb_le]. lia.
Qed.

Lemma str_single_digit (j : Z) : 0 ≤ j ≤ 9 → String.length (Py.str j) = 1%nat.
Proof.
  intros Hj.
  assert (j = 0 ∨ j = 1 ∨ j = 2 ∨ j = 3 ∨ j = 4 ∨ j = 5 ∨ j = 6 ∨ j = 7
          ∨ j = 8 ∨ j = 9) as H by lia.
  repeat (destruct H as [->|H]; [reflexivity|]). by subst.
Qed.

Lemma padded_is_no_numeral (si : string) (j : Z) :
  (String.length si < 2)%nat → si ≠ "" →
  (2 ≤ String.length (Py.str j))%nat →
  String "0" si ≠ Py.str j.
Proof.
  intros Hlen Hne Hj Heq.
  destruct (decide (0 ≤ j)) as [Hpos|Hneg].
  - destruct (str_nonneg j Hpos) as (_ & _ & Hval).
    rewrite <- Heq in Hval.
    destruct si as [|c [|c' si]]; [done| |simpl in Hlen; lia].
    simpl in Hval. pose proof (digit_val_bound c).
    rewrite str_single_digit in Hj by lia. lia.
  - destruct (str_neg j ltac:(lia)) as (d & Hd & _). congruence.
Qed.

Lemma fmt_02d_inj (i j : Z) : Py.fmt_02d i = Py.fmt_02d j → i = j.
Proof.
  unfold Py.fmt_02d.
  assert (Hi : Py.str i ≠ "") by (destruct (str_shape i) as (? & ? & -> & _); done).
  assert (Hj : Py.str j ≠ "") by (destruct (str_shape j) as (? & ? & -> & _); done).
  destruct (Nat.ltb_spec (String.length (Py.str i)) 2);
    destruct (Nat.ltb_spec (String.length (Py.str j)) 2); intros Heq.
  - injection Heq as Heq. by apply (inj pretty).
  - by destruct (padded_is_no_numeral (Py.str i) j).
  - by destruct (padded_is_no_numeral (Py.str j) i).
  - by apply (inj pretty).
Qed.

Lemma slide_file_inj (output_dir : string) (i j : Z) :
  Tts.slide_file output_dir i = Tts.slide_file output_dir j → i = j.
Proof.
  unfold Tts.slide_file, Tts.slide_name, Py.path_join. intros H.
  apply (inj (String.app (Py.path_root output_dir))) in H.
  induction (Py.path_parts output_dir) as [|c parts IH].
  - simpl in H. apply (inj (String.app "slide_")) in H.
    by apply string_app_inj_r, fmt_02d_inj in H.
  - apply IH. clear IH. rewrite <- !app_comm_cons in H.
    destruct (parts ++ ["slide_" +:+ Py.fmt_02d i +:+ ".mp3"]) eqn:Hi;
      [by destruct parts|].
    destruct (parts ++ ["slide_" +:+ Py.fmt_02d j +:+ ".mp3"]) eqn:Hj;
      [by destruct parts|].
    cbn [Py.join] in H.
    by apply (inj (String.app c)), (inj (String.app "/")) in H.
Qed.

Lemma index_nil {A : Type} (i : Z) : Py.index (@nil A) i = None.
Proof.
  unfold Py.index. rewrite !lookup_nil. by repeat case_match.
Qed.

Lemma spoken_none_for_no_slides (output_dir voice : string) (indices : list Z) :
  omap (Tts.spoken [] output_dir voice) indices = [].
Proof.
  induction indices as [|i indices IH]; [done|].
  cbn [omap list_omap]. rewrite IH.
  unfold Tts.spoken. by rewrite index_nil.
Qed.

Lemma print_diags_effect (diags : list Tts.diag) (w : Tts.world) :
  let w' := foldl (λ w d, Tts.print (Tts.LDiag d) w) w diags in
  Tts.requests w' = Tts.requests w ∧ Tts.files w' = Tts.files w.
Proof.
  revert w. induction diags as [|d diags IH]; intros w; simpl; [done|].
  by destruct (IH (Tts.print (Tts.LDiag d) w)) as [-> ->].
Qed.

(** C9. The orchestrator never raises. The requests it makes to the speech
    service are those for the selected indices whose slide has text, in
    ascending order of the index; for a selected index whose slide text
    trims to empty no request is made and the file of that index is left as
    it was, and the indices after it are processed as usual. (A script that
    cannot be read has no slides.) *)
Theorem empty_slides_are_skipped (e : Tts.env)
    (input_file output_dir voice : string) (slides_opt : option string)
    (w : Tts.world) :
  let slides := match Tts.files w !! input_file with
                | Some text => Tts.split_text_by_slides text
                | None => []
                end in
  let indices := Tts.selected_indices slides_opt (Z.of_nat (length slides)) in
  let r := Tts.process_presentation e input_file output_dir voice slides_opt w in
  r.1 = Ok ()
  ∧ NoDup indices ∧ StronglySorted Z.le indices
  ∧ Tts.requests r.2
    = Tts.requests w ++ omap (Tts.spoken slides output_dir voice) indices
  ∧ ∀ i slide_text,
      i ∈ indices → Py.index slides (i - 1) = Some slide_text →
      Py.strip slide_text = "" →
      Tts.spoken slides output_dir voice i = None
      ∧ (∀ q, q ∈ omap (Tts.spoken slides output_dir voice) indices →
              q.1.2 ≠ Tts.slide_file output_dir i)
      ∧ Tts.files r.2 !! Tts.slide_file output_dir i
        = Tts.files w !! Tts.slide_file output_dir i.
Proof.
  intros slides indices r.
  destruct (selected_indices_spec slides_opt (Z.of_nat (length slides)))
    as (Hnodup & Hsorted & Hin). fold indices in Hnodup, Hsorted, Hin.
  assert (Hrun : r.1 = Ok ()
                 ∧ Tts.requests r.2
                   = Tts.requests w
                     ++ omap (Tts.spoken slides output_dir voice) indices
                 ∧ ∀ p, (∀ q, q ∈ omap (Tts.spoken slides output_dir voice)
                                      indices → q.1.2 ≠ p) →
                        Tts.files r.2 !! p = Tts.files w !! p).
  { assert (Hidx : ∀ i, i ∈ indices → is_Some (Py.index slides (i - 1))).
    { intros i Hi. apply index_in_bounds, (parse_in_bounds slides_opt).
      by apply Hin. }
    assert (Hind : indices = Py.sorted Z.leb
                     (elements (Tts._parse_slides_option slides_opt
                                  (Z.of_nat (length slides))).1)) by done.
    subst r. unfold Tts.process_presentation.
    clearbody indices. subst slides.
    destruct (Tts.files w !! input_file) as [text|].
    2:{ simpl. by rewrite spoken_none_for_no_slides, app_nil_r. }
    destruct (Tts.split_text_by_slides text) as [|s0 slides'].
    { simpl. by rewrite spoken_none_for_no_slides, app_nil_r. }
    rewrite <- Hind.
    set (w1 := Tts.print (Tts.LProcessingSlides indices) _).
    assert (Hw1 : Tts.requests w1 = Tts.requests w
                  ∧ Tts.files w1 = Tts.files w).
    { subst w1. simpl. apply (print_diags_effect _ (Tts.print _ w)). }
    destruct Hw1 as [<- <-].
    by apply process_slides_effect. }
  destruct Hrun as (Hok & Hreq & Hfiles).
  repeat (split; [done|]).
  intros i slide_text Hi Ht Hempty.
  assert (Hnone : Tts.spoken slides output_dir voice i = None).
  { unfold Tts.spoken. rewrite Ht. by rewrite decide_True. }
  assert (Hq : ∀ q, q ∈ omap (Tts.spoken slides output_dir voice) indices →
                    q.1.2 ≠ Tts.slide_file output_dir i).
  { intros q Hq. apply list_elem_of_omap in Hq as (j & Hj & Hsp).
    unfold Tts.spoken in Hsp.
    destruct (Py.index slides (j - 1)) as [tj|] eqn:Htj; [|done].
    destruct (decide _) as [|Hfull]; [done|]. injection Hsp as <-. simpl.
    intros ->%slide_file_inj. congruence. }
  split; [done|]. split; [done|]. by apply Hfiles.
Qed.

Lemma empty_slides_are_skipped_witness :
  let text := "Slide 1: Opening" +:+ String Re.nl "Hello"
              +:+ String Re.nl "Slide 2: Pause" +:+ String Re.nl "  "
              +:+ String Re.nl "Slide 3: End" +:+ String Re.nl "Bye" in
  let e := Tts.Env (λ _ _, Tts.Body "ID3") (λ _, true) (λ _ _, None) in
  let w := Tts.World {["script.txt" := text]} [] [] in
  let r := Tts.process_presentation e "script.txt" "out/" "onyx" None w in
  Tts.split_text_by_slides text = ["Hello"; ""; "Bye"]
  ∧ r.1 = Ok ()
  ∧ Tts.requests r.2
    = [("Hello", "out/slide_01.mp3", "onyx");
       ("Bye", "out/slide_03.mp3", "onyx")].
Proof.
  intros text e w r.
  split; [vm_compute; reflexivity|].
  destruct (empty_slides_are_skipped e "script.txt" "out/" "onyx" None w)
    as (Hok & _ & _ & Hreq & _).
  split; [exact Hok|].
  fold r in Hreq. rewrite Hreq. vm_compute. reflexivity.
Defined.

(** ** Selection of the files to merge *)

Lemma omap_keeps (slides_filter : gset Z) (files : list Merge.path) :
  (omap (λ f, match Merge._extract_slide_num f with
              | Some num =>
                  if decide (num ∈ slides_filter) then Some (num, f) else None
              | None => None
              end) files).*2
  = filter (λ f, Merge.keeps slides_filter f) files.
Proof.
  induction files as [|f files IH]; [done|].
  rewrite filter_cons. cbn [omap list_omap].
  destruct (Merge._extract_slide_num f) as [num|] eqn:Hf.
  - destruct (decide (num ∈ slides_filter)) as [Hin|Hout].
    + rewrite fmap_cons, IH, decide_True; [done|].
      unfold Merge.keeps. rewrite Hf. by apply bool_decide_pack.
    + rewrite IH, decide_False; [done|].
      unfold Merge.keeps. rewrite Hf. intros H.
      by apply bool_decide_unpack in H.
  - rewrite IH, decide_False; [done|]. unfold Merge.keeps. rewrite Hf.
    by intros [].
Qed.




Lemma name_in_directory (d : Merge.path) (a : string) :
  Merge.name (d ++ [a]) = a.
Proof. unfold Merge.name. by rewrite last_snoc. Qed.

Lemma extract_in_directory (d : Merge.path) (a : string) :
  Merge._extract_slide_num (d ++ [a]) = Merge._extract_slide_num [a].
Proof. unfold Merge._extract_slide_num. by rewrite name_in_directory. Qed.

Lemma digits_prefix_unique (a a' r r' : string) (x x' : ascii) :
  Py.all_chars Py.is_digit a = true → Py.all_chars Py.is_digit a' = true →
  Py.is_digit x = false → Py.is_digit x' = false →
  a +:+ String x r = a' +:+ String x' r' → a = a'.
Proof.
  intros Ha Ha' Hx Hx'. revert a' Ha'.
  induction a as [|y a IH]; intros [|y' a'] Ha'; simpl in *.
  - done.
  - rewrite string_app_cons, string_app_nil_l. intros [= -> _].
    apply andb_true_iff in Ha' as [? _]. congruence.
  - rewrite string_app_cons, string_app_nil_l. intros [= -> _].
    apply andb_true_iff in Ha as [? _]. congruence.
  - rewrite !string_app_cons. intros [= -> Heq].
    apply andb_true_iff in Ha as [_ Ha].
    apply andb_true_iff in Ha' as [_ Ha']. f_equal. by apply IH.
Qed.

Lemma lower_dot_not_digit (c : ascii) :
  Re.lower c = Re.lower "."%char → Py.is_digit c = false.
Proof.
  destruct c as [[] [] [] [] [] [] [] []]; vm_compute; intros H;
    first [reflexivity | discriminate H].
Qed.

Lemma at_eol_end (i : bool) (rest : string) :
  Re.at_eol (Re.Flags i false) rest = true
  ↔ rest = "" ∨ rest = String Re.nl "".
Proof.
  unfold Re.at_eol. destruct rest as [|c r]; simpl.
  - split; auto.
  - rewrite andb_true_iff, !bool_decide_eq_true. split.
    + intros [-> ->]. by right.
    + intros [?|[= -> ->]]; done.
Qed.

(** What a match of [name_re] looks like. *)
Lemma name_re_matches (name : string) (m : list string) :
  Re.matches (Re.re_flags Merge.name_re) (Re.re_atoms Merge.name_re) None
    name m →
  ∃ c1 c2 c3 c4 c5 c6 ds e1 e2 e3 e4 tail,
    name = String c1 (String c2 (String c3 (String c4 (String c5 (String c6
             (ds +:+ String e1 (String e2 (String e3 (String e4 tail)))))))))
    ∧ Merge.group1 m = ds
    ∧ Re.lower_str (String c1 (String c2 (String c3 (String c4 (String c5
                      (String c6 "")))))) = "slide_"
    ∧ Py.all_chars Py.is_digit ds = true ∧ ds ≠ ""
    ∧ Re.lower_str (String e1 (String e2 (String e3 (String e4 "")))) = ".mp3"
    ∧ (tail = "" ∨ tail = String Re.nl "").
Proof.
  intros Hm.
  cbv [Merge.name_re Re.re_atoms Re.re_flags Re.lits app] in Hm.
  apply matches_bol_inv in Hm as (_ & ps0 & -> & Hm).
  apply matches_one_inv in Hm as (c1 & s1 & ps1 & -> & -> & L1 & Hm).
  apply matches_one_inv in Hm as (c2 & s2 & ps2 & -> & -> & L2 & Hm).
  apply matches_one_inv in Hm as (c3 & s3 & ps3 & -> & -> & L3 & Hm).
  apply matches_one_inv in Hm as (c4 & s4 & ps4 & -> & -> & L4 & Hm).
  apply matches_one_inv in Hm as (c5 & s5 & ps5 & -> & -> & L5 & Hm).
  apply matches_one_inv in Hm as (c6 & s6 & ps6 & -> & -> & L6 & Hm).
  apply matches_plus_inv in Hm as (ds & s7 & ps7 & -> & -> & Hne & Hds & Hm).
  apply matches_one_inv in Hm as (e1 & s8 & ps8 & -> & -> & E1 & Hm).
  apply matches_one_inv in Hm as (e2 & s9 & ps9 & -> & -> & E2 & Hm).
  apply matches_one_inv in Hm as (e3 & s10 & ps10 & -> & -> & E3 & Hm).
  apply matches_one_inv in Hm as (e4 & tail & ps11 & -> & -> & E4 & Hm).
  apply matches_eol_inv in Hm as (Heol & ps12 & -> & Hm).
  apply matches_nil_inv in Hm as ->.
  simpl in L1, L2, L3, L4, L5, L6, E1, E2, E3, E4.
  apply bool_decide_eq_true in L1, L2, L3, L4, L5, L6, E1, E2, E3, E4.
  exists c1, c2, c3, c4, c5, c6, ds, e1, e2, e3, e4, tail.
  split; [done|]. split; [done|].
  split; [simpl; by rewrite L1, L2, L3, L4, L5, L6|].
  split; [done|]. split; [done|].
  split; [simpl; by rewrite E1, E2, E3, E4|].
  by eapply at_eol_end.
Qed.

(** [_extract_slide_num] reads the number of the names of the convention, and
    of no other name. *)
Lemma extract_slide_num_spec (p : Merge.path) (n : Z) :
  Merge._extract_slide_num p = Some n ↔ Merge.slide_name (Merge.name p) n.
Proof.
  unfold Merge._extract_slide_num, Re.re_match. split.
  - destruct (Re.m_atoms _ _ None (Merge.name p)) as [m|] eqn:Hm; [|done].
    apply m_atoms_sound, name_re_matches in Hm
      as (c1 & c2 & c3 & c4 & c5 & c6 & ds & e1 & e2 & e3 & e4 & tail
          & Hname & -> & Hstem & Hds & Hne & Hext & Htail).
    rewrite int_of_string_numeral by done. intros [= <-].
    exists (String c1 (String c2 (String c3 (String c4 (String c5
              (String c6 "")))))), ds,
      (String e1 (String e2 (String e3 (String e4 "")))), tail.
    by rewrite Hname.
  - intros (stem & ds & ext & tail & Hname & Hstem & Hds & Hne & Hext
            & Htail & ->).
    destruct stem as [|c1 [|c2 [|c3 [|c4 [|c5 [|c6 [|c7 stem]]]]]]];
      try discriminate Hstem.
    destruct ext as [|e1 [|e2 [|e3 [|e4 [|e5 ext]]]]]; try discriminate Hext.
    injection Hstem as L1 L2 L3 L4 L5 L6. injection Hext as E1 E2 E3 E4.
    assert (Hm : Re.matches (Re.re_flags Merge.name_re)
                   (Re.re_atoms Merge.name_re) None (Merge.name p)
                   [""; String c1 ""; String c2 ""; String c3 "";
                    String c4 ""; String c5 ""; String c6 ""; ds;
                    String e1 ""; String e2 ""; String e3 ""; String e4 "";
                    ""]).
    { rewrite Hname.
      cbv [Merge.name_re Re.re_atoms Re.re_flags Re.lits app].
      rewrite !string_app_cons, !string_app_nil_l.
      apply Re.matches_bol; [done|].
      do 6 (apply Re.matches_one; [simpl; by apply bool_decide_eq_true|]).
      apply Re.matches_plus; [done..|].
      do 4 (apply Re.matches_one; [simpl; by apply bool_decide_eq_true|]).
      apply Re.matches_eol; [by apply at_eol_end|]. constructor. }
    destruct (m_atoms_complete _ _ _ _ _ Hm) as [m' Hm']. rewrite Hm'.
    apply m_atoms_sound, name_re_matches in Hm'
      as (c1' & c2' & c3' & c4' & c5' & c6' & ds' & e1' & e2' & e3' & e4'
          & tail' & Hname' & -> & _ & Hds' & _ & Hext' & _).
    rewrite Hname in Hname'.
    rewrite !string_app_cons, !string_app_nil_l in Hname'.
    injection Hname' as _ _ _ _ _ _ Heq. injection Hext' as E1' _ _ _.
    apply digits_prefix_unique in Heq as <-;
      try done; try (by apply lower_dot_not_digit).
    by apply int_of_string_numeral.
Qed.




(** ** The output file among the inputs *)

Lemma exclude_output_resolved (e : Merge.env) (files : list Merge.path)
    (out r : Merge.path) :
  Merge.resolve e out = Some r →
  Forall (λ f, is_Some (Merge.resolve e f)) files →
  Merge.exclude_output e files out
  = filter (λ f, Merge.resolve e f ≠ Some r) files.
Proof.
  intros Hout Hall. unfold Merge.exclude_output. rewrite Hout.
  assert (forallb (λ f, bool_decide (is_Some (Merge.resolve e f))) files
          = true) as ->; [|done].
  apply forallb_forall. intros f Hf. apply bool_decide_eq_true.
  rewrite Forall_forall in Hall. apply Hall. by apply list_elem_of_In.
Qed.

(** When a [resolve()] raises, the paths are compared as text instead. *)
Lemma exclude_output_fallback (e : Merge.env) (files : list Merge.path)
    (out : Merge.path) :
  ¬ Merge.resolvable e files out →
  Merge.exclude_output e files out
  = filter (λ f, Merge.path_str f ≠ Merge.path_str out) files.
Proof.
  intros Hno. unfold Merge.exclude_output.
  destruct (Merge.resolve e out) as [r|] eqn:Hout; [|done].
  destruct (forallb _ files) eqn:Hall; [|done].
  destruct Hno. split; [by rewrite Hout|].
  rewrite Forall_forall. intros f Hf.
  rewrite forallb_forall in Hall.
  eapply bool_decide_eq_true_1, Hall. by apply list_elem_of_In.
Qed.

(** What [main] does to the files and by running the encoder is what
    [_run_ffmpeg_concat] does on [merge_inputs]. *)
Lemma main_merges_inputs (e : Merge.env) (a : Merge.args) (w : Merge.world) :
  (Merge.files (Merge.main e a w).2 = Merge.files w
   ∧ Merge.execs (Merge.main e a w).2 = Merge.execs w)
  ∨ ∃ w0, Merge.files w0 = Merge.files w ∧ Merge.execs w0 = Merge.execs w
          ∧ let r := Merge._run_ffmpeg_concat e (Merge.merge_inputs e a)
                       (Merge.output_path a) (Merge.overwrite a) w0 in
            Merge.files (Merge.main e a w).2 = Merge.files r.2
            ∧ Merge.execs (Merge.main e a w).2 = Merge.execs r.2.
Proof.
  assert (Hprint : ∀ {A} (f : A → Merge.line) (l : list A) w1,
             Merge.files (foldl (λ w x, Merge.print (f x) w) w1 l)
             = Merge.files w1
             ∧ Merge.execs (foldl (λ w x, Merge.print (f x) w) w1 l)
               = Merge.execs w1).
  { intros A f l. induction l as [|x l IH]; intros w1; simpl; [done|].
    destruct (IH (Merge.print (f x) w1)) as [-> ->]. done. }
  unfold Merge.main.
  destruct (negb _); [by left|].
  set (w1 := foldl _ w _).
  assert (Merge.files w1 = Merge.files w ∧ Merge.execs w1 = Merge.execs w)
    as [Hf1 He1] by apply (Hprint _ Merge.LDiag).
  destruct (Merge.merge_inputs e a) as [|f files] eqn:Hin.
  { left. by destruct (decide _). }
  right.
  set (w2 := foldl _ (Merge.print Merge.LFilesToMerge w1) _).
  destruct (Hprint _ (λ f, Merge.LFile (Merge.name f)) (f :: files)
              (Merge.print Merge.LFilesToMerge w1)) as [Hf2 He2].
  fold w2 in Hf2, He2. simpl in Hf2, He2.
  exists w2. split; [congruence|]. split; [congruence|].
  destruct (Merge._run_ffmpeg_concat e (f :: files) _ _ w2)
    as [[[|]|x] w3]; done.
Qed.

(** C6, as stated, fails. The directory holds a link whose [resolve()]
    raises, the merged file of an earlier run and a slide; the output is
    given by its absolute path. The exclusion falls back to comparing the
    paths as text, they differ, and the output file stays among the
    inputs. *)
Lemma output_not_excluded_counterexample :
  let out := [""; "srv"; "output"; "merged_slides.mp3"] in
  let e := Merge.Env (Some "/usr/bin/ffmpeg")
             (λ p, if decide (p = ["output"; "loop.mp3"]) then None
                   else if decide (head p = Some "") then Some p
                   else Some ([""; "srv"] ++ p))
             (λ d _, (λ n, d ++ [n])
                       <$> ["loop.mp3"; "merged_slides.mp3"; "slide_01.mp3"])
             (λ _, true) (λ _ fs, (0, "", fs)) ["tmp"; "ffconcat.txt"] in
  let a := Merge.Args ["output"] "*.mp3" None (Some out) true in
  Merge.merge_inputs e a
  = [["output"; "loop.mp3"]; ["output"; "merged_slides.mp3"];
     ["output"; "slide_01.mp3"]]
  ∧ Merge.resolve e ["output"; "merged_slides.mp3"]
    = Merge.resolve e (Merge.output_path a)
  ∧ ¬ Merge.output_excluded e (Merge.merge_inputs e a) (Merge.output_path a).
Proof.
  intros out e a.
  assert (Hin : Merge.merge_inputs e a
                = [["output"; "loop.mp3"]; ["output"; "merged_slides.mp3"];
                   ["output"; "slide_01.mp3"]]) by (vm_compute; reflexivity).
  split; [exact Hin|]. split; [reflexivity|].
  intros Hex. rewrite Hin in Hex.
  apply (Hex ["output"; "merged_slides.mp3"] out); [set_solver|done..].
Qed.

(** C6, amended. When resolving the output path and every enumerated path
    raises no error, the inputs handed to the merge are the enumerated
    files, in their order, without those that resolve to the resolved output
    path; the merge reads and runs nothing else. *)
Theorem output_excluded_from_inputs (e : Merge.env) (a : Merge.args) :
  let collected := Merge._collect_files e (Merge.directory a)
                     (Merge.pattern a)
                     (Merge._parse_slides_option (Merge.slides a) None).1 in
  let out := Merge.output_path a in
  Merge.resolvable e collected out →
  Merge.output_excluded e (Merge.merge_inputs e a) out
  ∧ Merge.merge_inputs e a
    = filter (λ f, Merge.resolve e f ≠ Merge.resolve e out) collected
  ∧ ∀ w, (Merge.files (Merge.main e a w).2 = Merge.files w
          ∧ Merge.execs (Merge.main e a w).2 = Merge.execs w)
         ∨ ∃ w0, Merge.files w0 = Merge.files w
                 ∧ Merge.execs w0 = Merge.execs w
                 ∧ let r := Merge._run_ffmpeg_concat e (Merge.merge_inputs e a)
                              out (Merge.overwrite a) w0 in
                   Merge.files (Merge.main e a w).2 = Merge.files r.2
                   ∧ Merge.execs (Merge.main e a w).2 = Merge.execs r.2.
Proof.
  intros collected out [[r Hout] Hall].
  assert (Hin : Merge.merge_inputs e a
                = filter (λ f, Merge.resolve e f ≠ Some r) collected).
  { unfold Merge.merge_inputs. by apply exclude_output_resolved. }
  split; [|split].
  - intros f r' Hf Hr'. rewrite Hin in Hf.
    apply list_elem_of_filter in Hf as [Hne _]. congruence.
  - by rewrite Hout.
  - intros w. apply main_merges_inputs.
Qed.

Lemma output_excluded_from_inputs_witness :
  let e := Merge.Env (Some "/usr/bin/ffmpeg")
             (λ p, if decide (head p = Some "") then Some p
                   else Some ([""; "srv"] ++ p))
             (λ d _, (λ n, d ++ [n])
                       <$> ["merged_slides.mp3"; "slide_01.mp3";
                            "slide_02.mp3"])
             (λ _, true) (λ _ fs, (0, "", fs)) ["tmp"; "ffconcat.txt"] in
  let a := Merge.Args ["output"] "*.mp3" None
             (Some [""; "srv"; "output"; "merged_slides.mp3"]) true in
  Merge.merge_inputs e a
  = [["output"; "slide_01.mp3"]; ["output"; "slide_02.mp3"]]
  ∧ Merge.output_excluded e (Merge.merge_inputs e a) (Merge.output_path a).
Proof.
  intros e a. split; [vm_compute; reflexivity|].
  refine (proj1 (output_excluded_from_inputs e a _)).
  split; [by eexists|].
  vm_compute. repeat constructor; by eexists.
Defined.

(** ** Merging *)

Lemma succeeded_attempt_ok (returncode : Z) (output : Merge.path)
    (w : Merge.world) :
  Merge.succeeded returncode output w = true
  ↔ Merge.attempt_ok returncode output (Merge.files w).
Proof.
  unfold Merge.succeeded, Merge.attempt_ok.
  rewrite andb_true_iff, Z.eqb_eq.
  destruct (Merge.files w !! output) as [data|]; split.
  - intros [-> Hlen]. split; [done|]. exists data. split; [done|].
    intros ->. vm_compute in Hlen. discriminate.
  - intros [-> (data' & [= <-] & Hne)]. split; [done|].
    destruct data; [done|]. apply Nat.ltb_lt. simpl. lia.
  - by intros [_ ?].
  - by intros [_ (? & ? & _)].
Qed.

Lemma manifest_resolvable (e : Merge.env) (inputs : list Merge.path) :
  Forall (λ p, is_Some (Merge.resolve e p)) inputs →
  (Merge.manifest e inputs).2 = None.
Proof.
  induction 1 as [|p inputs [r Hr] _ IH]; simpl; [done|].
  rewrite Hr. by destruct (Merge.manifest e inputs).
Qed.

(** Without the overwrite flag an existing output file stays as it is,
    whatever else holds. *)
Lemma single_input_keeps_output (e : Merge.env) (input out : Merge.path)
    (w : Merge.world) :
  is_Some (Merge.files w !! out) →
  let r := Merge._run_ffmpeg_concat e [input] out false w in
  r.1 = Ok false ∧ Merge.files r.2 = Merge.files w.
Proof.
  intros Hout. unfold Merge._run_ffmpeg_concat, Merge.copy_single.
  destruct (Merge.which_ffmpeg e); [|done].
  by rewrite bool_decide_eq_true_2.
Qed.

(** C7, as stated, fails: with no encoder on the search path a single
    input is not copied, although no output file exists. *)
Lemma single_input_merge_counterexample :
  let e := Merge.Env None (λ p, Some p) (λ _ _, []) (λ _, true)
             (λ _ fs, (0, "", fs)) ["tmp"; "ffconcat.txt"] in
  let input := ["output"; "slide_01.mp3"] in
  let out := ["output"; "merged_slides.mp3"] in
  let w := Merge.World {[input := "ID3 audio"]} [] [] in
  Merge.files w !! out = None
  ∧ (Merge._run_ffmpeg_concat e [input] out false w).1 = Ok false
  ∧ Merge.files (Merge._run_ffmpeg_concat e [input] out false w).2 !! out
    = None.
Proof. by repeat split. Qed.

(** C7, amended. For a single input, with the encoder found on the search
    path and an input file that exists and is not the output file itself:
    when no output file exists, or the overwrite flag is set, the output
    file gets the bytes of the input and the merge succeeds; when the output
    file exists and the flag is not set, the merge fails and the files stay
    as they are. *)
Theorem single_input_merge (e : Merge.env) (exe : string)
    (input out : Merge.path) (overwrite : bool) (w : Merge.world)
    (data : string) :
  Merge.which_ffmpeg e = Some exe →
  Merge.files w !! input = Some data →
  input ≠ out →
  let r := Merge._run_ffmpeg_concat e [input] out overwrite w in
  (Merge.files w !! out = None ∨ overwrite = true →
   r.1 = Ok true ∧ Merge.files r.2 = <[out := data]> (Merge.files w))
  ∧ (is_Some (Merge.files w !! out) → overwrite = false →
     r.1 = Ok false ∧ Merge.files r.2 = Merge.files w).
Proof.
  intros Hexe Hin Hne r. split.
  - subst r. unfold Merge._run_ffmpeg_concat, Merge.copy_single,
      Merge.copyfile.
    rewrite Hexe, Hin, decide_False by done.
    intros [Hout| ->].
    + rewrite Hout, bool_decide_eq_false_2; [done|]. by intros [? ?].
    + by rewrite andb_false_r.
  - intros Hout ->. by apply single_input_keeps_output.
Qed.

Lemma single_input_merge_witness :
  let e := Merge.Env (Some "/usr/bin/ffmpeg") (λ p, Some p) (λ _ _, [])
             (λ _, true) (λ _ fs, (0, "", fs)) ["tmp"; "ffconcat.txt"] in
  let input := ["output"; "slide_01.mp3"] in
  let out := ["output"; "merged_slides.mp3"] in
  let w := Merge.World {[input := "ID3 audio"]} [] [] in
  let r := Merge._run_ffmpeg_concat e [input] out false w in
  r.1 = Ok true ∧ Merge.files r.2 !! out = Some "ID3 audio".
Proof.
  intros e input out w r.
  destruct (single_input_merge e "/usr/bin/ffmpeg" input out false w
              "ID3 audio" eq_refl eq_refl ltac:(discriminate)) as [H _].
  destruct (H (or_introl eq_refl)) as [H1 H2].
  split; [exact H1|]. subst r. rewrite H2. reflexivity.
Defined.

(** C4, as stated, fails: with no encoder on the search path the merge of
    two inputs returns failure although no attempt was run, so that neither
    the stream copy nor the re-encoding has failed. *)
Lemma multi_input_merge_counterexample :
  let e := Merge.Env None (λ p, Some p) (λ _ _, []) (λ _, true)
             (λ _ fs, (0, "", <[["output"; "merged_slides.mp3"] := "ID3"]> fs))
             ["tmp"; "ffconcat.txt"] in
  let inputs := [["output"; "slide_01.mp3"]; ["output"; "slide_02.mp3"]] in
  let out := ["output"; "merged_slides.mp3"] in
  let w := Merge.World ∅ [] [] in
  (Merge._run_ffmpeg_concat e inputs out false w).1 = Ok false
  ∧ Merge.execs (Merge._run_ffmpeg_concat e inputs out false w).2 = [].
Proof. by split. Qed.

(** C4, amended. For a merge of several inputs, with the encoder found on
    the search path and a manifest that could be written: the stream copy
    is run first; when it exits with status zero and leaves a non-empty
    output file, the merge succeeds and nothing else is run; otherwise the
    re-encoding is run on the same manifest file, and the merge succeeds
    exactly when the re-encoding exits with status zero and leaves a
    non-empty output file; it fails exactly when both attempts have failed.
    The manifest file is removed in the end. *)
Theorem multi_input_merge (e : Merge.env) (exe : string)
    (inputs : list Merge.path) (out : Merge.path) (overwrite : bool)
    (w : Merge.world) :
  Merge.which_ffmpeg e = Some exe →
  length inputs ≠ 1%nat →
  Forall (λ p, is_Some (Merge.resolve e p)) inputs →
  let flag := if overwrite then "-y" else "-n" in
  let copy := Merge.cmd_copy exe flag (Merge.tmp_file e) out in
  let reencode := Merge.cmd_reencode exe flag (Merge.tmp_file e) out in
  let first := Merge.ffmpeg e copy
                 (<[Merge.tmp_file e := (Merge.manifest e inputs).1]>
                    (Merge.files w)) in
  let second := Merge.ffmpeg e reencode first.2 in
  let r := Merge._run_ffmpeg_concat e inputs out overwrite w in
  (Merge.attempt_ok first.1.1 out first.2 →
   r.1 = Ok true
   ∧ Merge.execs r.2 = Merge.execs w ++ [copy]
   ∧ Merge.files r.2 = delete (Merge.tmp_file e) first.2)
  ∧ (¬ Merge.attempt_ok first.1.1 out first.2 →
     Merge.execs r.2 = Merge.execs w ++ [copy; reencode]
     ∧ Merge.files r.2 = delete (Merge.tmp_file e) second.2
     ∧ (r.1 = Ok true ↔ Merge.attempt_ok second.1.1 out second.2)
     ∧ (r.1 = Ok false ↔ ¬ Merge.attempt_ok second.1.1 out second.2)).
Proof.
  intros Hexe Hlen Hres flag copy reencode first second r.
  assert (Hr : r = let '(ok, w') :=
                     Merge.concat_attempts e exe (length inputs)
                       (Merge.tmp_file e) out overwrite
                       (Merge.set_files
                          (<[Merge.tmp_file e := (Merge.manifest e inputs).1]>
                             (Merge.files w)) w) in
                   (Ok ok, Merge.set_files
                             (delete (Merge.tmp_file e) (Merge.files w')) w')).
  { subst r. unfold Merge._run_ffmpeg_concat, Merge._write_ffmpeg_concat_list.
    rewrite Hexe. pose proof (manifest_resolvable e inputs Hres) as Hm.
    destruct (Merge.manifest e inputs) as [text x]. simpl in Hm. subst x.
    by destruct inputs as [|? [|? ?]]. }
  clearbody r. subst r.
  unfold Merge.concat_attempts, Merge.run. simpl Merge.files.
  fold flag. fold copy. fold reencode. fold first.
  destruct first as [[rc1 err1] fs1] eqn:Hfirst. subst second. simpl.
  destruct (Merge.succeeded rc1 out _) eqn:Hok1.
  - apply succeeded_attempt_ok in Hok1. simpl in Hok1. by split.
  - assert (Hno1 : ¬ Merge.attempt_ok rc1 out fs1).
    { intros H. eapply (succeeded_attempt_ok rc1 out (Merge.World fs1 _ _)) in H.
      by rewrite H in Hok1. }
    split; [done|]. intros _.
    destruct (Merge.ffmpeg e reencode fs1) as [[rc2 err2] fs2]. simpl.
    destruct (Merge.succeeded rc2 out _) eqn:Hok2.
    + apply succeeded_attempt_ok in Hok2. simpl in Hok2.
      rewrite <- app_assoc. simpl. intuition congruence.
    + assert (Hno2 : ¬ Merge.attempt_ok rc2 out fs2).
      { intros H.
        eapply (succeeded_attempt_ok rc2 out (Merge.World fs2 _ _)) in H.
        by rewrite H in Hok2. }
      unfold Merge.print_stderr.
      destruct (decide (err1 = _)), (decide (err2 = _)); simpl;
        rewrite <- app_assoc; simpl; intuition congruence.
Qed.

Lemma multi_input_merge_witness :
  let out := ["output"; "merged_slides.mp3"] in
  let e := Merge.Env (Some "/usr/bin/ffmpeg") (λ p, Some ([""; "srv"] ++ p))
             (λ _ _, []) (λ _, true)
             (λ cmd fs, if decide ("copy" ∈ cmd) then (1, "codec mismatch", fs)
                        else (0, "", <[out := "ID3 merged"]> fs))
             ["tmp"; "ffconcat.txt"] in
  let inputs := [["output"; "slide_01.mp3"]; ["output"; "slide_02.mp3"]] in
  let r := Merge._run_ffmpeg_concat e inputs out false (Merge.World ∅ [] []) in
  r.1 = Ok true ∧ length (Merge.execs r.2) = 2%nat.
Proof.
  intros out e inputs r.
  destruct (multi_input_merge e "/usr/bin/ffmpeg" inputs out false
              (Merge.World ∅ [] []) eq_refl ltac:(discriminate)
              ltac:(repeat constructor; by eexists)) as [_ H].
  destruct H as (Hexecs & _ & Hok & _).
  { intros [Hrc _]. vm_compute in Hrc. discriminate. }
  split.
  - apply Hok. split; [reflexivity|]. exists "ID3 merged".
    split; [reflexivity|discriminate].
  - fold r in Hexecs. rewrite Hexecs. reflexivity.
Defined.

(** ** Durations *)

(** C10. With the probe tool installed, no usable value from the metadata
    reader and both queries answering with empty output, the function
    returns no pair at all: [_duration_via_ffprobe] ends without a [return],
    and comparing its [None] with the threshold raises [TypeError]. *)
Theorem duration_raises_on_empty_probe_output :
  let e := Durations.Env true (λ _, Some None) (Some "/usr/bin/ffprobe")
             (λ _, Durations.ProbeEmpty) (λ _, Durations.ProbeEmpty) in
  Durations._duration_via_ffprobe e "slide_01.mp3" = None
  ∧ Durations.get_mp3_duration_seconds e "slide_01.mp3" = Raise TypeError.
Proof. by split. Qed.

(** Whenever the function does return a pair, the pair is as the claim
    says. *)
Lemma duration_pair_invariant (e : Durations.env) (path : string)
    (seconds : Q) (source : string) :
  Durations.get_mp3_duration_seconds e path = Ok (seconds, source) →
  ((source = "mutagen" ∨ source = "ffprobe")
   ∧ (Durations.threshold < seconds)%Q)
  ∨ (source = "unknown" ∧ seconds = 0%Q).
Proof.
  unfold Durations.get_mp3_duration_seconds, Durations.gt.
  destruct (Qle_bool _ Durations.threshold) eqn:Hmut.
  - destruct (Durations._duration_via_ffprobe e path) as [ff|]; [|done].
    destruct (Qle_bool ff _) eqn:Hff; simpl; intros [= <- <-]; [by right|].
    left. split; [by right|].
    apply Qnot_le_lt. rewrite <- Qle_bool_iff. by rewrite Hff.
  - intros [= <- <-]. left. split; [by left|].
    apply Qnot_le_lt. rewrite <- Qle_bool_iff. by rewrite Hmut.
Qed.





(** * Further properties of the code *)

(** ** More on the selection of slides *)

Lemma split_on_cons (c : ascii) (s : string) :
  ∃ p ps, Py.split_on c s = p :: ps.
Proof.
  induction s as [|d s IH]; simpl; [by eexists _, _|].
  destruct (decide (d = c)); [by eexists _, _|].
  destruct IH as (p & ps & ->). by eexists _, _.
Qed.

Lemma split_on_app (c : ascii) (a b : string) :
  Py.split_on c (a +:+ String c b) = Py.split_on c a ++ Py.split_on c b.
Proof.
  induction a as [|d a IH]; simpl.
  - by rewrite decide_True.
  - destruct (decide (d = c)); [by rewrite IH|].
    rewrite IH. by destruct (split_on_cons c a) as (p & ps & ->).
Qed.

Lemma foldl_select_invalid (ok : Z → bool) (l : list Z) (st : pstate) :
  invalid_tokens
    (foldl (λ st i, if ok i then select i st else reject (Py.str i) st) st l)
  = invalid_tokens st ++ (Py.str <$> filter (λ i, ok i = false) l).
Proof.
  revert st. induction l as [|i l IH]; intros st; simpl.
  - by rewrite app_nil_r.
  - rewrite IH. rewrite filter_cons.
    destruct (ok i) eqn:Hi; simpl; [done|].
    by rewrite <- app_assoc.
Qed.

Lemma pstate_eq (st st' : pstate) :
  selected st = selected st' → invalid_tokens st = invalid_tokens st' →
  st = st'.
Proof. destruct st, st'; simpl; congruence. Qed.

Lemma scan_token_additive (ok : Z → bool) (st : pstate) (raw : string) :
  scan_token ok st raw
  = PState (selected st ∪ selected (scan_token ok pstate_init raw))
      (invalid_tokens st ++ invalid_tokens (scan_token ok pstate_init raw)).
Proof.
  unfold scan_token.
  destruct (decide (Py.strip raw = "")).
  { apply pstate_eq; simpl; [by rewrite union_empty_r_L|by rewrite app_nil_r]. }
  destruct (Py.contains "-" (Py.strip raw)).
  - destruct (Py.split1 "-" (Py.strip raw)) as [start_s end_s].
    destruct (Py.int_of_string (Py.strip start_s)) as [start|];
      [|apply pstate_eq; simpl; [by rewrite union_empty_r_L|done]].
    destruct (Py.int_of_string (Py.strip end_s)) as [end_|];
      [|apply pstate_eq; simpl; [by rewrite union_empty_r_L|done]].
    destruct (if end_ <? start then (end_, start) else (start, end_))
      as [lo hi].
    apply pstate_eq; simpl.
    + rewrite !foldl_select_selected. simpl. by rewrite union_empty_l_L.
    + by rewrite !foldl_select_invalid.
  - destruct (Py.int_of_string (Py.strip raw)) as [idx|];
      [destruct (ok idx)|]; apply pstate_eq; simpl;
      rewrite ?union_empty_r_L, ?app_nil_r; try done.
    by rewrite (comm_L (∪)).
Qed.

Lemma foldl_scan_additive (ok : Z → bool) (l : list string) (st : pstate) :
  foldl (scan_token ok) st l
  = PState (selected st ∪ selected (foldl (scan_token ok) pstate_init l))
      (invalid_tokens st
       ++ invalid_tokens (foldl (scan_token ok) pstate_init l)).
Proof.
  revert st. induction l as [|raw l IH]; intros st; simpl.
  - apply pstate_eq; simpl; [by rewrite union_empty_r_L|by rewrite app_nil_r].
  - rewrite (IH (scan_token ok st raw)), (IH (scan_token ok pstate_init raw)).
    rewrite (scan_token_additive ok st raw). simpl.
    by rewrite (assoc_L (∪)), <- app_assoc.
Qed.

Lemma scan_app (ok : Z → bool) (a b : string) :
  scan ok (a +:+ "," +:+ b)
  = PState (selected (scan ok a) ∪ selected (scan ok b))
      (invalid_tokens (scan ok a) ++ invalid_tokens (scan ok b)).
Proof.
  unfold scan. change ("," +:+ b) with (String "," b).
  rewrite split_on_app, foldl_app. apply foldl_scan_additive.
Qed.

Lemma merge_parse_scan (s : string) (hint : option Z) :
  (Merge._parse_slides_option (Some s) hint).1
  = selected (scan Merge.at_least_one s).
Proof. by destruct s. Qed.

(** X1. Selections separated by a comma add up: the slides selected by
    "a,b" are those selected by "a" or by "b", with either index test, and
    the rejected tokens are those of "a" followed by those of "b". For the
    parser of [merge_mp3s.py] this is the union of the two results. *)
Theorem selection_of_comma_list (a b : string) (hint : option Z) :
  (∀ ok, selected (scan ok (a +:+ "," +:+ b))
         = selected (scan ok a) ∪ selected (scan ok b)
         ∧ invalid_tokens (scan ok (a +:+ "," +:+ b))
           = invalid_tokens (scan ok a) ++ invalid_tokens (scan ok b))
  ∧ (Merge._parse_slides_option (Some (a +:+ "," +:+ b)) hint).1
    = (Merge._parse_slides_option (Some a) hint).1
      ∪ (Merge._parse_slides_option (Some b) hint).1.
Proof.
  split.
  - intros ok. by rewrite scan_app.
  - rewrite !merge_parse_scan. by rewrite scan_app.
Qed.

Lemma scan_str (ok : Z → bool) (k : Z) :
  0 ≤ k →
  scan ok (Py.str k)
  = if ok k then select k pstate_init else reject (Py.str k) pstate_init.
Proof.
  intros Hk. destruct (str_nonneg k Hk) as (Hdig & Hne & _).
  destruct (str_shape k) as (c & d & Hstr & _ & Hcomma & _).
  unfold scan. rewrite split_on_absent by done. simpl.
  unfold scan_token.
  destruct (strip_numeral _ Hdig Hne) as [-> _].
  rewrite decide_False by done.
  rewrite (contains_all_chars Py.is_digit) by done.
  by rewrite int_of_string_str.
Qed.

Lemma join_str_cons (k k' : Z) (ks : list Z) :
  Py.join "," (Py.str <$> k :: k' :: ks)
  = Py.str k +:+ "," +:+ Py.join "," (Py.str <$> k' :: ks).
Proof. done. Qed.

Lemma scan_join (ok : Z → bool) (ks : list Z) :
  (∀ k, k ∈ ks → 0 ≤ k) →
  selected (scan ok (Py.join "," (Py.str <$> ks)))
  = list_to_set (filter (λ i, ok i = true) ks)
  ∧ invalid_tokens (scan ok (Py.join "," (Py.str <$> ks)))
    = Py.str <$> filter (λ i, ok i = false) ks.
Proof.
  induction ks as [|k ks IH]; intros Hks; [done|].
  assert (Hk : 0 ≤ k) by (apply Hks; left).
  destruct IH as [IHs IHi]; [intros; apply Hks; by right|].
  assert (Hone : selected (scan ok (Py.str k))
                 = list_to_set (filter (λ i, ok i = true) [k])
                 ∧ invalid_tokens (scan ok (Py.str k))
                   = Py.str <$> filter (λ i, ok i = false) [k]).
  { rewrite scan_str by done. rewrite !filter_cons, !filter_nil.
    destruct (ok k); simpl; by rewrite ?union_empty_r_L. }
  destruct ks as [|k' ks]; [done|].
  rewrite join_str_cons, scan_app. cbn [selected invalid_tokens].
  rewrite IHs, IHi. destruct Hone as [-> ->].
  rewrite !(filter_cons _ k). rewrite !filter_nil.
  destruct (ok k); simpl; by rewrite ?union_empty_r_L, ?union_empty_l_L.
Qed.

Lemma join_str_nonempty (k : Z) (ks : list Z) :
  ∃ c s, Py.join "," (Py.str <$> k :: ks) = String c s.
Proof.
  destruct (str_shape k) as (c & d & Hstr & _).
  destruct ks as [|k' ks].
  - simpl. rewrite Hstr. by eexists _, _.
  - rewrite join_str_cons, Hstr. simpl. by eexists _, _.
Qed.

Lemma filter_all {A : Type} (P : A → Prop) `{∀ x, Decision (P x)}
    (l : list A) :
  (∀ x, x ∈ l → P x) → filter P l = l.
Proof.
  induction l as [|x l IH]; intros Hl; [done|].
  rewrite filter_cons, decide_True by (apply Hl; left).
  rewrite IH; [done|]. intros; apply Hl. by right.
Qed.

Lemma filter_none {A : Type} (P : A → Prop) `{∀ x, Decision (P x)}
    (l : list A) :
  (∀ x, x ∈ l → ¬ P x) → filter P l = [].
Proof.
  induction l as [|x l IH]; intros Hl; [done|].
  rewrite filter_cons, decide_False by (apply Hl; left).
  apply IH. intros; apply Hl. by right.
Qed.

(** X2. Writing a list of slide numbers with [str] and commas and parsing
    it gives the list back as a set, without any warning: with the parser
    of [tts_openai.py] when the list is not empty and its numbers are
    within 1..total, and with the parser of [merge_mp3s.py] when they are
    at least 1. *)
Theorem selection_round_trip (ks : list Z) (total : Z) :
  ks ≠ [] →
  (∀ k, k ∈ ks → 1 ≤ k) →
  let s := Py.join "," (Py.str <$> ks) in
  Merge._parse_slides_option (Some s) None = (list_to_set ks, [])
  ∧ ((∀ k, k ∈ ks → k ≤ total) →
     Tts._parse_slides_option (Some s) total = (list_to_set ks, [])).
Proof.
  intros Hne Hks s.
  destruct ks as [|k ks]; [done|].
  destruct (join_str_nonempty k ks) as (c & s' & Hs).
  assert (Hk0 : ∀ k', k' ∈ k :: ks → 0 ≤ k') by (intros k' ?%Hks; lia).
  split.
  - destruct (scan_join Merge.at_least_one (k :: ks) Hk0) as [Hsel Hinv].
    fold s in Hsel, Hinv. subst s. rewrite Hs in *.
    assert (Hin : ∀ x, x ∈ k :: ks → Merge.at_least_one x = true).
    { intros x Hx%Hks. by apply Z.leb_le. }
    unfold Merge._parse_slides_option. rewrite Hsel, Hinv.
    rewrite (filter_all _ _ Hin).
    rewrite filter_none by (intros x Hx%Hin; by rewrite Hx). done.
  - intros Htot.
    destruct (scan_join (Tts.in_bounds total) (k :: ks) Hk0) as [Hsel Hinv].
    fold s in Hsel, Hinv. subst s. rewrite Hs in *.
    assert (Hin : ∀ x, x ∈ k :: ks → Tts.in_bounds total x = true).
    { intros x Hx. unfold Tts.in_bounds.
      apply andb_true_iff. split; apply Z.leb_le; auto. }
    unfold Tts._parse_slides_option. rewrite Hsel, Hinv.
    rewrite (filter_all _ _ Hin).
    rewrite filter_none by (intros x Hx%Hin; by rewrite Hx).
    rewrite decide_False; [done|].
    intros Hempty. assert (Hk : k ∈ (∅ : gset Z)).
    { rewrite <- Hempty. apply elem_of_list_to_set. left. }
    by apply not_elem_of_empty in Hk.
Qed.

Lemma selection_round_trip_witness :
  Merge._parse_slides_option (Some "3,1,12") None
  = (list_to_set [3; 1; 12], [])
  ∧ Tts._parse_slides_option (Some "3,1,12") 12
    = (list_to_set [3; 1; 12], []).
Proof.
  assert (Hks : ∀ k, k ∈ [3; 1; 12] → 1 ≤ k ≤ 12).
  { intros k Hk. repeat (apply elem_of_cons in Hk as [->|Hk]; [lia|]).
    by apply elem_of_nil in Hk. }
  destruct (selection_round_trip [3; 1; 12] 12 ltac:(done)) as [Hm Ht].
  { intros k Hk%Hks. lia. }
  split; [exact Hm|]. apply Ht. intros k Hk%Hks. lia.
Defined.

(** X3. With at least one slide, the parser of [tts_openai.py] never
    returns an empty selection, and it returns only indices of existing
    slides: whatever the selection string, something is synthesised and no
    index is out of range. *)
Theorem tts_selection_valid_and_nonempty (slides_opt : option string)
    (total : Z) :
  1 ≤ total →
  (Tts._parse_slides_option slides_opt total).1 ≠ ∅
  ∧ ∀ i, i ∈ (Tts._parse_slides_option slides_opt total).1 → 1 ≤ i ≤ total.
Proof.
  intros Htot. split; [|intros i; apply parse_in_bounds].
  assert (Hall : Py.all_indices total ≠ ∅).
  { intros H. assert (H1 : 1 ∈ Py.all_indices total)
      by (apply elem_of_all_indices; lia).
    rewrite H in H1. by apply not_elem_of_empty in H1. }
  unfold Tts._parse_slides_option.
  destruct slides_opt as [[|c s]|]; try done.
  destruct (decide (selected _ = ∅)); [done|].
  by destruct (decide (invalid_tokens _ = [])).
Qed.

Lemma tts_selection_valid_and_nonempty_witness :
  (Tts._parse_slides_option (Some "7-9,x") 3).1 ≠ ∅
  ∧ ∀ i, i ∈ (Tts._parse_slides_option (Some "7-9,x") 3).1 → 1 ≤ i ≤ 3.
Proof.
  apply (tts_selection_valid_and_nonempty (Some "7-9,x") 3). lia.
Defined.

(** X4. The upper-bound hint of the parser of [merge_mp3s.py] changes the
    warnings only: the set returned is the same with and without it, its
    indices are all at least 1, and the warning about the bound is printed
    exactly when a returned index is above the bound. *)
Theorem merge_selection_ignores_hint (slides_opt : option string)
    (hint : option Z) :
  (Merge._parse_slides_option slides_opt hint).1
  = (Merge._parse_slides_option slides_opt None).1
  ∧ (∀ i, i ∈ (Merge._parse_slides_option slides_opt hint).1 → 1 ≤ i)
  ∧ ∀ b, Merge.WarnExceeds b ∈ (Merge._parse_slides_option slides_opt (Some b)).2
         ↔ ∃ i, i ∈ (Merge._parse_slides_option slides_opt (Some b)).1 ∧ b < i.
Proof.
  destruct slides_opt as [s|]; [|simpl; split; [done|split]].
  - split; [by rewrite !merge_parse_scan|]. split.
    + intros i. rewrite merge_parse_scan. intros Hi%scan_ok.
      unfold Merge.at_least_one in Hi. by apply Z.leb_le in Hi.
    + intros b. destruct s as [|c s].
      { simpl. split; [by intros ?%elem_of_nil|].
        by intros (i & ?%not_elem_of_empty & _). }
      unfold Merge._parse_slides_option. cbn [fst snd].
      rewrite elem_of_app.
      set (st := scan Merge.at_least_one (String c s)).
      assert (Hw1 : ¬ Merge.WarnExceeds b
                      ∈ (if decide (invalid_tokens st = []) then []
                         else [Merge.WarnInvalid (invalid_tokens st)])).
      { destruct (decide (invalid_tokens st = []));
          [by intros ?%elem_of_nil|].
        by intros [=]%list_elem_of_singleton. }
      destruct (bool_decide _) eqn:Hex.
      * apply bool_decide_eq_true in Hex. apply Exists_exists in Hex.
        destruct Hex as (i & Hi%elem_of_elements & Hb).
        split; [eauto|]. intros _. right. by apply list_elem_of_singleton.
      * apply bool_decide_eq_false in Hex. rewrite Exists_exists in Hex.
        split; [by intros [?|?%elem_of_nil]|].
        intros (i & Hi & Hb). destruct Hex. exists i.
        by rewrite elem_of_elements.
  - intros i ?%not_elem_of_empty. done.
  - intros b. split; [by intros ?%elem_of_nil|].
    by intros (i & ?%not_elem_of_empty & _).
Qed.

(** ** More on the slides of a script *)

Lemma lstrip_by_shape (p : ascii → bool) (s : string) :
  Py.lstrip_by p s = "" ∨ ∃ c r, Py.lstrip_by p s = String c r ∧ p c = false.
Proof.
  induction s as [|c s IH]; simpl; [by left|].
  destruct (p c) eqn:Hc; [done|]. right. by eexists _, _.
Qed.

Lemma rstrip_by_head (p : ascii → bool) (c : ascii) (r : string) :
  p c = false → ∃ r', Py.rstrip_by p (String c r) = String c r'.
Proof.
  intros Hc. simpl. destruct (Py.rstrip_by p r); [|by eexists].
  rewrite Hc. by eexists.
Qed.

Lemma rstrip_by_idemp (p : ascii → bool) (s : string) :
  Py.rstrip_by p (Py.rstrip_by p s) = Py.rstrip_by p s.
Proof.
  induction s as [|c s IH]; [done|]. simpl.
  destruct (Py.rstrip_by p s) as [|d r] eqn:Hr.
  - destruct (p c) eqn:Hc; [done|]. simpl. by rewrite Hc.
  - change (Py.rstrip_by p (String c (String d r)))
      with (match Py.rstrip_by p (String d r) with
            | "" => if p c then "" else String c ""
            | r' => String c r'
            end).
    by rewrite IH.
Qed.

Lemma strip_by_idemp (p : ascii → bool) (s : string) :
  Py.strip_by p (Py.strip_by p s) = Py.strip_by p s.
Proof.
  unfold Py.strip_by.
  destruct (lstrip_by_shape p s) as [->|(c & r & -> & Hc)]; [done|].
  destruct (rstrip_by_head p c r Hc) as [r' Hr].
  rewrite Hr at 1. simpl Py.lstrip_by. rewrite Hc, <- Hr.
  apply rstrip_by_idemp.
Qed.

(** X5. Every slide [split_text_by_slides] returns is trimmed: stripping
    it again changes nothing, in the header mode and in the separator
    mode. *)
Theorem slides_are_trimmed (text p : string) :
  p ∈ Tts.split_text_by_slides text → Py.strip p = p.
Proof.
  unfold Tts.split_text_by_slides.
  destruct (Re.finditer Tts.header_re text) as [|m headers].
  - intros [_ Hp]%list_elem_of_filter.
    apply list_elem_of_fmap in Hp as (q & -> & _).
    apply strip_by_idemp.
  - intros (i & Hi)%list_elem_of_lookup_1.
    rewrite list_lookup_imap in Hi.
    destruct ((m :: headers) !! i) as [m'|]; [|done].
    injection Hi as <-. apply strip_by_idemp.
Qed.

Lemma slides_are_trimmed_witness :
  Py.strip "Hello." = "Hello.".
Proof.
  apply (slides_are_trimmed
           ("Slide 1: Intro" +:+ String Re.nl "  Hello.  ") "Hello.").
  vm_compute. left.
Defined.

Lemma all_chars_drop (p : ascii → bool) (n : nat) (s : string) :
  Py.all_chars p s = true → Py.all_chars p (Py.drop_str n s) = true.
Proof.
  revert s. induction n as [|n IH]; intros [|c s]; simpl; try done.
  intros [_ Hs]%andb_true_iff. by apply IH.
Qed.

Lemma all_chars_take (p : ascii → bool) (n : nat) (s : string) :
  Py.all_chars p s = true → Py.all_chars p (Py.take_str n s) = true.
Proof.
  revert s. induction n as [|n IH]; intros [|c s]; simpl; try done.
  intros [Hc Hs]%andb_true_iff. rewrite Hc. by apply IH.
Qed.

Lemma space_is_not_s (c : ascii) :
  Py.is_space c = true → Re.lower c ≠ "s"%char.
Proof.
  destruct c as [[] [] [] [] [] [] [] []]; vm_compute; congruence.
Qed.

Lemma blank_has_no_header (text : string) :
  Py.all_chars Py.is_space text = true → Re.finditer Tts.header_re text = [].
Proof.
  intros Hblank.
  destruct (Re.finditer Tts.header_re text) as [|m headers] eqn:Hh; [done|].
  pose proof (finditer_leftmost Tts.header_re text) as Hleft.
  apply (leftmost_iff _ (Tts.header_at text)) in Hleft;
    [|intros; symmetry; apply header_at_match].
  apply leftmost_nonempty in Hleft. rewrite Hh in Hleft.
  destruct Hleft as [Hex _]. destruct (Hex ltac:(done)) as (s & e & Hat).
  destruct Hat as (_ & _ & sp1 & word & sp2 & digits & sp3 & tail & rest
                   & Hdrop & _ & Hword & _).
  apply (all_chars_drop _ s) in Hblank. rewrite Hdrop in Hblank.
  rewrite !all_chars_app in Hblank.
  apply andb_true_iff in Hblank as [_ Hblank].
  apply andb_true_iff in Hblank as [Hblank _].
  destruct word as [|c word]; [done|]. simpl in Hword, Hblank.
  apply andb_true_iff in Hblank as [Hc _].
  apply space_is_not_s in Hc. congruence.
Qed.

Lemma split_at_all_chars (p : ascii → bool) (text : string) (last : nat)
    (spans : list (nat * nat)) (part : string) :
  Py.all_chars p text = true → part ∈ Re.split_at text last spans →
  Py.all_chars p part = true.
Proof.
  intros Htext. revert last.
  induction spans as [|[s e] spans IH]; intros last; simpl.
  - intros ->%list_elem_of_singleton.
    by apply all_chars_take, all_chars_drop.
  - intros [->|Hpart]%elem_of_cons; [|by eapply IH].
    by apply all_chars_take, all_chars_drop.
Qed.

(** X6. A script of whitespace only, the empty script included, has no
    slides, and [process_presentation] then says so and makes no request
    and writes no file. *)
Theorem blank_script_has_no_slides (text : string) :
  Py.all_chars Py.is_space text = true →
  Tts.split_text_by_slides text = []
  ∧ ∀ e input_file output_dir voice slides_opt w,
      Tts.files w !! input_file = Some text →
      Tts.process_presentation e input_file output_dir voice slides_opt w
      = (Ok (), Tts.print Tts.LNoSlides w).
Proof.
  intros Hblank.
  assert (Hnone : Tts.split_text_by_slides text = []).
  { unfold Tts.split_text_by_slides. rewrite blank_has_no_header by done.
    apply filter_none. intros q (part & -> & Hpart)%list_elem_of_fmap.
    intros Hq. apply Hq, strip_all_space.
    by eapply split_at_all_chars. }
  split; [done|]. intros e input_file output_dir voice slides_opt w Hfile.
  unfold Tts.process_presentation. by rewrite Hfile, Hnone.
Qed.

Lemma blank_script_has_no_slides_witness :
  Tts.split_text_by_slides (String Re.nl "   ") = [].
Proof.
  apply (blank_script_has_no_slides (String Re.nl "   ")). reflexivity.
Defined.

(** ** More on the synthesis *)

Lemma take_str_all (s : string) : Py.take_str (String.length s) s = s.
Proof. induction s as [|c s IH]; simpl; [done|]. by rewrite IH. Qed.

(** X7. What one call of [text_to_speech] leaves behind. A call that
    returns true has stored the whole audio of the answer in the output
    file and has printed that it is saved. A call that returns false has
    printed the error, and the output file is as it was before or, when
    it could be opened, holds a part of the audio from its start, possibly
    nothing: a failed call can lose what the file held. *)
Theorem text_to_speech_outcome (e : Tts.env) (text output_file voice : string)
    (w : Tts.world) :
  let r := Tts.text_to_speech e text output_file voice w in
  let audio := match Tts.speech e text voice with
               | Tts.Stream chunks _ => Tts.written chunks
               | Tts.Body bytes => bytes
               | _ => ""
               end in
  (r.1 = true →
     Tts.files r.2 = <[output_file := audio]> (Tts.files w)
     ∧ last (Tts.stdout r.2) = Some (Tts.LSaved output_file)
     ∧ Tts.write_fault e output_file audio = None
     ∧ ∀ chunks, Tts.speech e text voice ≠ Tts.Stream chunks true)
  ∧ (r.1 = false →
     last (Tts.stdout r.2) = Some Tts.LSpeechError
     ∧ (Tts.files r.2 = Tts.files w
        ∨ (Tts.writable e output_file = true
           ∧ ∃ n, Tts.files r.2
                  = <[output_file := Py.take_str n audio]> (Tts.files w)))).
Proof.
  unfold Tts.text_to_speech, Tts.store.
  destruct (Tts.speech e text voice) as [|chunks broken|bytes| |];
    destruct (Tts.writable e output_file); cbn zeta;
    try (split; [done|]; intros _; simpl; rewrite last_snoc;
         split; [done|]; by left).
  - destruct (Tts.write_fault e output_file (Tts.written chunks)) as [n|].
    + split; [done|]. intros _. simpl. rewrite last_snoc. split; [done|].
      right. split; [done|]. by exists n.
    + destruct broken; simpl; rewrite last_snoc.
      * split; [done|]. intros _. split; [done|]. right. split; [done|].
        exists (String.length (Tts.written chunks)). by rewrite take_str_all.
      * split; [|done]. intros _. by repeat split.
  - destruct (Tts.write_fault e output_file bytes) as [n|]; simpl;
      rewrite last_snoc.
    + split; [done|]. intros _. split; [done|].
      right. split; [done|]. by exists n.
    + split; [|done]. by intros _.
  - split; [done|]. intros _. simpl. rewrite last_snoc. split; [done|].
    right. split; [done|]. by exists 0%nat.
Qed.

Lemma process_presentation_effect (e : Tts.env)
    (input_file output_dir voice : string) (slides_opt : option string)
    (w : Tts.world) :
  let slides := match Tts.files w !! input_file with
                | Some text => Tts.split_text_by_slides text
                | None => []
                end in
  let indices := Tts.selected_indices slides_opt (Z.of_nat (length slides)) in
  let r := Tts.process_presentation e input_file output_dir voice slides_opt w in
  r.1 = Ok ()
  ∧ Tts.requests r.2
    = Tts.requests w ++ omap (Tts.spoken slides output_dir voice) indices
  ∧ ∀ p, (∀ q, q ∈ omap (Tts.spoken slides output_dir voice) indices →
               q.1.2 ≠ p) →
         Tts.files r.2 !! p = Tts.files w !! p.
Proof.
  intros slides indices r.
  destruct (selected_indices_spec slides_opt (Z.of_nat (length slides)))
    as (_ & _ & Hin). fold indices in Hin.
  assert (Hidx : ∀ i, i ∈ indices → is_Some (Py.index slides (i - 1))).
  { intros i Hi. apply index_in_bounds, (parse_in_bounds slides_opt).
    by apply Hin. }
  assert (Hind : indices = Py.sorted Z.leb
                   (elements (Tts._parse_slides_option slides_opt
                                (Z.of_nat (length slides))).1)) by done.
  subst r. unfold Tts.process_presentation.
  clearbody indices. subst slides.
  destruct (Tts.files w !! input_file) as [text|].
  2:{ simpl. by rewrite spoken_none_for_no_slides, app_nil_r. }
  destruct (Tts.split_text_by_slides text) as [|s0 slides'].
  { simpl. by rewrite spoken_none_for_no_slides, app_nil_r. }
  rewrite <- Hind.
  set (w1 := Tts.print (Tts.LProcessingSlides indices) _).
  assert (Hw1 : Tts.requests w1 = Tts.requests w
                ∧ Tts.files w1 = Tts.files w).
  { subst w1. simpl. apply (print_diags_effect _ (Tts.print _ w)). }
  destruct Hw1 as [<- <-].
  by apply process_slides_effect.
Qed.

(** X8. [process_presentation] changes no file but slide files: a path
    whose content after the run is not the one before it, or that is there
    when it was not, is the path [slide_NN.mp3] in the output directory of
    a selected slide of the script that has text. *)
Theorem only_slide_files_are_written (e : Tts.env)
    (input_file output_dir voice : string) (slides_opt : option string)
    (w : Tts.world) (p : string) :
  let slides := match Tts.files w !! input_file with
                | Some text => Tts.split_text_by_slides text
                | None => []
                end in
  let total := Z.of_nat (length slides) in
  let r := Tts.process_presentation e input_file output_dir voice slides_opt w in
  Tts.files r.2 !! p ≠ Tts.files w !! p →
  ∃ i slide_text,
    i ∈ (Tts._parse_slides_option slides_opt total).1
    ∧ 1 ≤ i ≤ total
    ∧ Py.index slides (i - 1) = Some slide_text
    ∧ Py.strip slide_text ≠ ""
    ∧ p = Tts.slide_file output_dir i.
Proof.
  intros slides total r Hp.
  destruct (process_presentation_effect e input_file output_dir voice
              slides_opt w) as (_ & _ & Hfiles).
  fold slides in Hfiles. fold r in Hfiles.
  set (indices := Tts.selected_indices slides_opt (Z.of_nat (length slides)))
    in Hfiles.
  destruct (decide (Exists (λ q : string * string * string, q.1.2 = p)
                      (omap (Tts.spoken slides output_dir voice) indices)))
    as [Hex|Hno].
  - apply Exists_exists in Hex as (q & Hq & Hqp).
    apply list_elem_of_omap in Hq as (j & Hj & Hsp).
    destruct (selected_indices_spec slides_opt (Z.of_nat (length slides)))
      as (_ & _ & Hin).
    apply Hin in Hj. pose proof (parse_in_bounds _ _ _ Hj) as Hbounds.
    unfold Tts.spoken in Hsp.
    destruct (Py.index slides (j - 1)) as [tj|] eqn:Htj; [|done].
    destruct (decide _) as [|Hfull]; [done|]. injection Hsp as <-.
    simpl in Hqp. by exists j, tj.
  - destruct Hp. apply Hfiles. intros q Hq Hqp. apply Hno.
    apply Exists_exists. by exists q.
Qed.

Lemma only_slide_files_are_written_witness :
  let e := Tts.Env (λ _ _, Tts.Body "ID3") (λ _, true) (λ _ _, None) in
  let w := Tts.World {["script.txt" := "Hello"]} [] [] in
  ∃ i slide_text,
    i ∈ (Tts._parse_slides_option None 1).1
    ∧ 1 ≤ i ≤ 1
    ∧ Py.index ["Hello"] (i - 1) = Some slide_text
    ∧ Py.strip slide_text ≠ ""
    ∧ "out/slide_01.mp3" = Tts.slide_file "out/" i.
Proof.
  intros e w.
  apply (only_slide_files_are_written e "script.txt" "out/" "onyx" None w
           "out/slide_01.mp3").
  vm_compute. discriminate.
Defined.

Lemma seqZ_strongly_sorted (m n : Z) : StronglySorted Z.le (seqZ m n).
Proof.
  remember (Z.to_nat n) as k eqn:Hk. revert m n Hk.
  induction k as [|k IH]; intros m n Hk.
  - rewrite seqZ_nil by lia. constructor.
  - rewrite seqZ_cons by lia. constructor; [apply IH; lia|].
    apply Forall_seqZ. lia.
Qed.

Lemma selected_indices_default (total : Z) :
  Tts.selected_indices None total = Py.range_incl 1 total.
Proof.
  destruct (selected_indices_spec None total) as (Hnodup & Hsorted & Hin).
  apply (StronglySorted_unique Z.le); [done|apply seqZ_strongly_sorted|].
  apply NoDup_Permutation; [done|apply NoDup_seqZ|].
  intros i. rewrite Hin. simpl. unfold Py.all_indices.
  by rewrite elem_of_list_to_set.
Qed.

(** X9. Without a selection every slide of the script is taken, in the
    order of the script: the requests made are those of the slides 1 to
    total that have text, and every such slide is requested with its own
    file [slide_NN.mp3]. *)
Theorem all_slides_by_default (e : Tts.env)
    (input_file output_dir voice : string) (w : Tts.world) :
  let slides := match Tts.files w !! input_file with
                | Some text => Tts.split_text_by_slides text
                | None => []
                end in
  let r := Tts.process_presentation e input_file output_dir voice None w in
  Tts.requests r.2
  = Tts.requests w
    ++ omap (Tts.spoken slides output_dir voice)
         (Py.range_incl 1 (Z.of_nat (length slides)))
  ∧ ∀ (n : nat) (slide_text : string),
      slides !! n = Some slide_text → Py.strip slide_text ≠ "" →
      (slide_text, Tts.slide_file output_dir (Z.of_nat (S n)), voice)
      ∈ Tts.requests r.2.
Proof.
  intros slides r.
  destruct (process_presentation_effect e input_file output_dir voice None w)
    as (_ & Hreq & _).
  fold slides in Hreq. fold r in Hreq.
  rewrite selected_indices_default in Hreq.
  split; [done|]. intros n slide_text Hn Hfull.
  rewrite Hreq. apply elem_of_app. right.
  apply list_elem_of_omap. exists (Z.of_nat (S n)).
  assert (Hlen : (n < length slides)%nat) by by eapply lookup_lt_Some.
  split.
  - unfold Py.range_incl. apply elem_of_seqZ. lia.
  - unfold Tts.spoken, Py.index.
    replace (Z.of_nat (S n) - 1) with (Z.of_nat n) by lia.
    rewrite (proj2 (Z.leb_le 0 (Z.of_nat n))) by lia.
    rewrite (proj2 (Z.ltb_lt (Z.of_nat n) (Z.of_nat (length slides)))) by lia.
    simpl. rewrite Nat2Z.id, Hn. by rewrite decide_False.
Qed.

Lemma fmt_02d_digits (i : Z) :
  0 ≤ i →
  Py.all_chars Py.is_digit (Py.fmt_02d i) = true ∧ Py.fmt_02d i ≠ ""
  ∧ Py.digits_value 0 (Py.fmt_02d i) = i.
Proof.
  intros Hi. destruct (str_nonneg i Hi) as (Hdig & Hne & Hval).
  unfold Py.fmt_02d. by destruct (_ <? _)%nat.
Qed.

Lemma join_snoc (parts : list string) (name : string) :
  ∃ before, Py.join "/" (parts ++ [name]) = before +:+ name
            ∧ (before = "" ∨ Py.last_char before = Some "/"%char).
Proof.
  induction parts as [|c parts (before & Hjoin & Hlast)].
  - exists "". by split; [|left].
  - exists (c +:+ "/" +:+ before). split.
    + rewrite <- app_comm_cons.
      destruct (parts ++ [name]) eqn:Hl; [by destruct parts|].
      change (Py.join "/" (c :: s :: l))
        with (c +:+ "/" +:+ Py.join "/" (s :: l)).
      by rewrite Hjoin, !string_app_assoc.
    + right. destruct Hlast as [->|Hlast].
      * by rewrite string_app_nil_r, last_char_app.
      * rewrite <- string_app_assoc, last_char_app; [done|].
        by intros ->.
Qed.

Lemma path_join_last (s name : string) :
  ∃ before, Py.path_join s name = before +:+ name
            ∧ (before = "" ∨ Py.last_char before = Some "/"%char).
Proof.
  unfold Py.path_join.
  destruct (join_snoc (Py.path_parts s) name) as (before & -> & Hlast).
  exists (Py.path_root s +:+ before).
  split; [by rewrite string_app_assoc|].
  destruct Hlast as [->|Hlast].
  - rewrite string_app_nil_r. unfold Py.path_root.
    destruct s as [|c0 s]; [by left|].
    destruct (Ascii.eqb_spec c0 "/") as [->|Hc0].
    + destruct s as [|c1 s]; [by right|].
      destruct (Ascii.eqb_spec c1 "/") as [->|Hc1].
      * destruct s as [|c2 s]; [by right|].
        destruct (Ascii.eqb_spec c2 "/") as [->|Hc2]; [by right|].
        right. by destruct c2 as [[] [] [] [] [] [] [] []].
      * right. by destruct c1 as [[] [] [] [] [] [] [] []].
    + left. by destruct c0 as [[] [] [] [] [] [] [] []].
  - right. rewrite last_char_app; [done|]. by intros ->.
Qed.

(** X10. The file the synthesiser writes for slide [i] is read back by the
    merger as slide [i]. The last component of the path written is
    [slide_NN.mp3], whatever the output directory, and a file of that name
    is slide [i] for the merger, in any directory and for any number of
    digits. *)
Theorem written_slide_file_is_read_back (output_dir : string)
    (d : Merge.path) (i : Z) :
  0 ≤ i →
  (∃ before, Tts.slide_file output_dir i = before +:+ Tts.slide_name i
             ∧ (before = "" ∨ Py.last_char before = Some "/"%char))
  ∧ Py.contains "/" (Tts.slide_name i) = false
  ∧ Merge._extract_slide_num (d ++ [Tts.slide_name i]) = Some i.
Proof.
  intros Hi. destruct (fmt_02d_digits i Hi) as (Hdig & Hne & Hval).
  split; [apply path_join_last|]. split.
  - unfold Tts.slide_name. rewrite !contains_app.
    by rewrite (contains_all_chars Py.is_digit "/" (Py.fmt_02d i)).
  - rewrite extract_in_directory. apply extract_slide_num_spec.
    exists "slide_", (Py.fmt_02d i), ".mp3", "".
    unfold Merge.name. simpl last. simpl default.
    repeat split; try done. by left.
Qed.

Lemma written_slide_file_is_read_back_witness :
  (∃ before, Tts.slide_file "out/" 7 = before +:+ "slide_07.mp3"
             ∧ (before = "" ∨ Py.last_char before = Some "/"%char))
  ∧ Py.contains "/" "slide_07.mp3" = false
  ∧ Merge._extract_slide_num ["out"; "slide_07.mp3"] = Some 7.
Proof.
  apply (written_slide_file_is_read_back "out/" ["out"] 7). lia.
Defined.

(** X11. Two different slides never share an output file, whatever the
    output directory: no slide overwrites the audio of another one. *)
Theorem slide_files_are_distinct (output_dir : string) (i j : Z) :
  i ≠ j → Tts.slide_file output_dir i ≠ Tts.slide_file output_dir j.
Proof. intros Hij Heq. by apply Hij, (slide_file_inj output_dir). Qed.

Lemma slide_files_are_distinct_witness :
  Tts.slide_file "output" 1 ≠ Tts.slide_file "output" (-1).
Proof. apply slide_files_are_distinct. lia. Defined.

(** ** More on the merger *)

Lemma ascii_compare_refl (c : ascii) : Ascii.compare c c = Eq.
Proof. unfold Ascii.compare. apply N.compare_refl. Qed.

Lemma ascii_compare_lt_trans (a b c : ascii) :
  Ascii.compare a b = Lt → Ascii.compare b c = Lt → Ascii.compare a c = Lt.
Proof. unfold Ascii.compare. rewrite !N.compare_lt_iff. lia. Qed.

Lemma string_compare_lt_trans (a b c : string) :
  String.compare a b = Lt → String.compare b c = Lt → String.compare a c = Lt.
Proof.
  revert b c. induction a as [|x a IH]; intros [|y b] [|z c]; simpl; try done.
  destruct (Ascii.compare x y) eqn:Hxy; try done;
    destruct (Ascii.compare y z) eqn:Hyz; try done.
  - apply Ascii.compare_eq_iff in Hxy as ->. rewrite Hyz. apply IH.
  - apply Ascii.compare_eq_iff in Hxy as ->. by rewrite Hyz.
  - apply Ascii.compare_eq_iff in Hyz as <-. by rewrite Hxy.
  - by rewrite (ascii_compare_lt_trans x y z).
Qed.

Lemma path_leb_total (a b : Merge.path) :
  Merge.path_leb a b = false → Merge.path_leb b a = true.
Proof.
  revert b. induction a as [|x a IH]; intros [|y b]; simpl; try done.
  rewrite (String.compare_antisym y x).
  destruct (String.compare x y); simpl; try done. apply IH.
Qed.

Lemma path_leb_trans (a b c : Merge.path) :
  Merge.path_leb a b = true → Merge.path_leb b c = true →
  Merge.path_leb a c = true.
Proof.
  revert b c. induction a as [|x a IH]; intros [|y b] [|z c]; simpl; try done.
  destruct (String.compare x y) eqn:Hxy; try done;
    destruct (String.compare y z) eqn:Hyz; try done.
  - apply String.compare_eq_iff in Hxy as ->. rewrite Hyz. apply IH.
  - apply String.compare_eq_iff in Hxy as ->. by rewrite Hyz.
  - apply String.compare_eq_iff in Hyz as <-. by rewrite Hxy.
  - by rewrite (string_compare_lt_trans x y z).
Qed.

(** X12. [_collect_files] returns files of the directory listing only, each
    as often as the listing has it. Without a selection it returns the
    whole listing, in the order of the paths. *)
Theorem collect_files_without_selection (e : Merge.env)
    (directory : Merge.path) (pattern : string) (slides_filter : gset Z) :
  let listing := Merge.glob e directory pattern in
  (∀ f, f ∈ Merge._collect_files e directory pattern slides_filter →
        f ∈ listing)
  ∧ Merge._collect_files e directory pattern ∅ ≡ₚ listing
  ∧ StronglySorted (λ a b, Merge.path_leb a b = true)
      (Merge._collect_files e directory pattern ∅).
Proof.
  intros listing. split; [|split].
  - intros f. unfold Merge._collect_files.
    destruct (decide (slides_filter = ∅)).
    + by rewrite (sorted_perm Merge.path_leb).
    + set (key_leb := λ t u : Z * Merge.path, t.1 <=? u.1).
      rewrite (sorted_perm key_leb), omap_keeps.
      rewrite (sorted_perm Merge.path_leb).
      by intros [_ ?]%list_elem_of_filter.
  - unfold Merge._collect_files. rewrite decide_True by done.
    apply sorted_perm.
  - unfold Merge._collect_files. rewrite decide_True by done.
    apply sorted_strongly; [apply path_leb_total|apply path_leb_trans].
Qed.









(** ** More on the durations *)

Lemma ffprobe_none_iff (e : Durations.env) (path : string) :
  Durations._duration_via_ffprobe e path = None
  ↔ Durations.which_ffprobe e ≠ None
    ∧ Durations.first_accepted (λ v, Durations.gt v 0)
        [Durations.probe_stream e path] = None
    ∧ Durations.probe_format e path = Durations.ProbeEmpty.
Proof.
  unfold Durations._duration_via_ffprobe, Durations.ffprobe_format.
  destruct (Durations.which_ffprobe e) as [exe|]; simpl;
    [|split; [done|by intros (? & _)]].
  destruct (Durations.probe_stream e path) as [| | |v]; simpl;
    try destruct (Durations.gt v 0); simpl;
    destruct (Durations.probe_format e path) as [| | |v2]; simpl;
    split; try done; by intros (_ & ? & ?).
Qed.

Lemma usable_mutagen_none (e : Durations.env) (path : string) :
  Durations.usable_mutagen e path = None
  ↔ Qle_bool (default 0%Q (Durations._duration_via_mutagen e path))
      Durations.threshold = true.
Proof.
  unfold Durations.usable_mutagen, Durations.gt.
  destruct (Durations._duration_via_mutagen e path) as [d|]; simpl; [|done].
  by destruct (Qle_bool d Durations.threshold).
Qed.

(** X15. The function raises nothing but [TypeError], and that exactly when
    the format-level query is consulted and its output is empty. *)
Theorem duration_raises_only_on_empty_format (e : Durations.env)
    (path : string) (x : exn) :
  Durations.get_mp3_duration_seconds e path = Raise x
  ↔ x = TypeError ∧ Durations.format_consulted e path
    ∧ Durations.probe_format e path = Durations.ProbeEmpty.
Proof.
  pose proof (ffprobe_none_iff e path) as Hff.
  pose proof (usable_mutagen_none e path) as Hmut.
  unfold Durations.format_consulted, Durations.get_mp3_duration_seconds.
  destruct (Qle_bool _ Durations.threshold).
  - destruct (Durations._duration_via_ffprobe e path) as [ff|].
    + destruct (Durations.gt ff Durations.threshold);
        (split; [done|]); intros (_ & (_ & ? & ?) & ?);
        by destruct Hff as [_ Hff]; discriminate Hff.
    + split; [intros [= <-]|by intros (-> & _)].
      destruct Hff as [Hff _], Hmut as [_ Hmut].
      destruct (Hff eq_refl) as (? & ? & ?). repeat split; auto.
  - split; [done|]. intros (_ & (? & _) & _).
    destruct Hmut as [Hmut _]. by discriminate Hmut.
Qed.



(** X17. Every pair the function returns can be traced to its source. With
    source "mutagen" the seconds are what the metadata reader gave, with
    source "ffprobe" they are what the probe tool gave and the metadata
    reader gave nothing usable; in both cases they are above half a
    millisecond. With source "unknown" they are 0.0. There is no other
    source. *)
Theorem duration_source_traceable (e : Durations.env) (path : string)
    (seconds : Q) (source : string) :
  Durations.get_mp3_duration_seconds e path = Ok (seconds, source) →
  (source = "mutagen"
   ∧ Durations._duration_via_mutagen e path = Some seconds
   ∧ (Durations.threshold < seconds)%Q)
  ∨ (source = "ffprobe"
     ∧ Durations._duration_via_ffprobe e path = Some seconds
     ∧ (Durations.threshold < seconds)%Q
     ∧ Durations.usable_mutagen e path = None)
  ∨ (source = "unknown" ∧ seconds = 0%Q
     ∧ Durations.usable_mutagen e path = None).
Proof.
  pose proof (usable_mutagen_none e path) as Hmut.
  unfold Durations.get_mp3_duration_seconds, Durations.gt.
  destruct (Qle_bool _ Durations.threshold) eqn:Hdur.
  - destruct Hmut as [_ Hmut]. specialize (Hmut eq_refl).
    destruct (Durations._duration_via_ffprobe e path) as [ff|]; [|done].
    destruct (Qle_bool ff _) eqn:Hff; simpl; intros [= <- <-].
    + right. right. done.
    + right. left. repeat split; try done.
      apply Qnot_le_lt. rewrite <- Qle_bool_iff. by rewrite Hff.
  - intros [= <- <-]. left. split; [done|].
    destruct (Durations._duration_via_mutagen e path) as [d|]; [|done].
    simpl in *. split; [done|].
    apply Qnot_le_lt. rewrite <- Qle_bool_iff. by rewrite Hdur.
Qed.

Lemma duration_source_traceable_witness :
  let e := Durations.Env true (λ _, Some (Some (3 # 10000)))
             (Some "/usr/bin/ffprobe")
             (λ _, Durations.ProbeFloat (25 # 2)) (λ _, Durations.ProbeEmpty) in
  Durations._duration_via_ffprobe e "slide_01.mp3" = Some (25 # 2)%Q
  ∧ Durations.usable_mutagen e "slide_01.mp3" = None.
Proof.
  intros e.
  destruct (duration_source_traceable e "slide_01.mp3" (25 # 2) "ffprobe"
              eq_refl) as [(H & _)|[(_ & H1 & _ & H2)|(H & _)]];
    [discriminate H|by split|discriminate H].
Defined.

(** ** The printed durations *)

Lemma string_app_inj_l (a b c : string) : a +:+ b = a +:+ c → b = c.
Proof.
  induction a as [|x a IH]; [done|].
  rewrite !string_app_cons. intros [= H]. by apply IH.
Qed.

Lemma zeros_digits (n : nat) :
  Py.all_chars Py.is_digit (Py.zeros n) = true
  ∧ ∀ s, Py.digits_value 0 (Py.zeros n +:+ s) = Py.digits_value 0 s.
Proof.
  induction n as [|n [IH1 IH2]]; [done|]. split; [done|].
  intros s. simpl. apply IH2.
Qed.

Lemma fmt_0d_digits (width : nat) (i : Z) :
  0 ≤ i →
  Py.all_chars Py.is_digit (Py.fmt_0d width i) = true
  ∧ Py.fmt_0d width i ≠ ""
  ∧ Py.digits_value 0 (Py.fmt_0d width i) = i.
Proof.
  intros Hi. destruct (str_nonneg i Hi) as (Hdig & Hne & Hval).
  unfold Py.fmt_0d. rewrite (proj2 (Z.ltb_ge i 0)) by done.
  rewrite Z.abs_eq by done. rewrite string_app_nil_l.
  destruct (zeros_digits (width - String.length "" - String.length (Py.str i)))
    as [Hz1 Hz2].
  split; [by rewrite all_chars_app, Hz1|]. split; [|by rewrite Hz2].
  intros [_ ?]%string_app_nil_inv. done.
Qed.

Lemma fmt_0d_two (i : Z) : Py.fmt_0d 2 i = Py.fmt_02d i.
Proof.
  unfold Py.fmt_0d, Py.fmt_02d.
  destruct (Z.ltb_spec i 0) as [Hi|Hi].
  - destruct (str_neg i Hi) as (d & Hstr & Hdig & Hne).
    assert (Habs : Py.str i = String "-" (Py.str (Z.abs i))).
    { unfold Py.str. destruct i as [|p|p]; try lia. reflexivity. }
    rewrite Habs. destruct (str_nonneg (Z.abs i)) as (_ & Hne' & _); [lia|].
    destruct (Py.str (Z.abs i)) as [|c r]; [done|]. by destruct r.
  - rewrite Z.abs_eq by done.
    destruct (str_nonneg i Hi) as (_ & Hne & _).
    destruct (Py.str i) as [|c r]; [done|]. by destruct r.
Qed.

Lemma field_split (w w' : nat) (x x' : Z) (c c' : ascii) (r r' : string) :
  0 ≤ x → 0 ≤ x' → Py.is_digit c = false → Py.is_digit c' = false →
  Py.fmt_0d w x +:+ String c r = Py.fmt_0d w' x' +:+ String c' r' →
  x = x' ∧ String c r = String c' r'.
Proof.
  intros Hx Hx' Hc Hc' Heq.
  destruct (fmt_0d_digits w x Hx) as (Hd & _ & Hv).
  destruct (fmt_0d_digits w' x' Hx') as (Hd' & _ & Hv').
  pose proof (digits_prefix_unique _ _ _ _ _ _ Hd Hd' Hc Hc' Heq) as Hfmt.
  rewrite Hfmt in Heq, Hv. apply string_app_inj_l in Heq.
  split; [congruence|done].
Qed.

(** X18. The printed form of a duration loses nothing of its milliseconds:
    two durations that round to different non-negative numbers of
    milliseconds are printed differently, whether or not they reach an
    hour. *)
Theorem format_seconds_distinguishes (to_ms : Q → Z) (x y : Q) :
  0 ≤ to_ms x → 0 ≤ to_ms y → to_ms x ≠ to_ms y →
  Durations.format_seconds to_ms (Some x)
  ≠ Durations.format_seconds to_ms (Some y).
Proof.
  simpl. generalize (to_ms x) (to_ms y). clear x y to_ms.
  intros a b Ha Hb Hab Heq. apply Hab. clear Hab.
  unfold Durations.format_ms in Heq.
  pose proof (Z.div_mod a 3600000 ltac:(done)) as Ea1.
  pose proof (Z.div_mod (a mod 3600000) 60000 ltac:(done)) as Ea2.
  pose proof (Z.div_mod ((a mod 3600000) mod 60000) 1000 ltac:(done)) as Ea3.
  pose proof (Z.div_mod b 3600000 ltac:(done)) as Eb1.
  pose proof (Z.div_mod (b mod 3600000) 60000 ltac:(done)) as Eb2.
  pose proof (Z.div_mod ((b mod 3600000) mod 60000) 1000 ltac:(done)) as Eb3.
  pose proof (Z.mod_pos_bound a 3600000 ltac:(done)) as Ba1.
  pose proof (Z.mod_pos_bound (a mod 3600000) 60000 ltac:(done)) as Ba2.
  pose proof (Z.mod_pos_bound ((a mod 3600000) mod 60000) 1000 ltac:(done))
    as Ba3.
  pose proof (Z.mod_pos_bound b 3600000 ltac:(done)) as Bb1.
  pose proof (Z.mod_pos_bound (b mod 3600000) 60000 ltac:(done)) as Bb2.
  pose proof (Z.mod_pos_bound ((b mod 3600000) mod 60000) 1000 ltac:(done))
    as Bb3.
  assert (Ha0 : 0 ≤ a / 3600000) by (apply Z.div_pos; lia).
  assert (Hb0 : 0 ≤ b / 3600000) by (apply Z.div_pos; lia).
  assert (Ha1 : 0 ≤ a mod 3600000 / 60000) by (apply Z.div_pos; lia).
  assert (Hb1 : 0 ≤ b mod 3600000 / 60000) by (apply Z.div_pos; lia).
  assert (Ha2 : 0 ≤ (a mod 3600000) mod 60000 / 1000)
    by (apply Z.div_pos; lia).
  assert (Hb2 : 0 ≤ (b mod 3600000) mod 60000 / 1000)
    by (apply Z.div_pos; lia).
  set (ha := a / 3600000) in *. set (hb := b / 3600000) in *.
  set (ma := a mod 3600000 / 60000) in *.
  set (mb := b mod 3600000 / 60000) in *.
  set (sa := (a mod 3600000) mod 60000 / 1000) in *.
  set (sb := (b mod 3600000) mod 60000 / 1000) in *.
  set (ka := ((a mod 3600000) mod 60000) mod 1000) in *.
  set (kb := ((b mod 3600000) mod 60000) mod 1000) in *.
  assert (Hlast : Py.fmt_0d 3 ka = Py.fmt_0d 3 kb → ka = kb).
  { intros H.
    destruct (fmt_0d_digits 3 ka ltac:(lia)) as (_ & _ & <-).
    destruct (fmt_0d_digits 3 kb ltac:(lia)) as (_ & _ & <-).
    by rewrite H. }
  destruct (Z.ltb_spec 0 ha) as [Hha|Hha], (Z.ltb_spec 0 hb) as [Hhb|Hhb].
  - apply field_split in Heq as [Hh Heq]; try done. injection Heq as Heq.
    apply field_split in Heq as [Hm Heq]; try done. injection Heq as Heq.
    apply field_split in Heq as [Hs Heq]; try done. injection Heq as Heq.
    apply Hlast in Heq. lia.
  - apply field_split in Heq as [_ Heq]; try done. injection Heq as Heq.
    apply field_split in Heq as [_ Heq]; try done.
  - apply field_split in Heq as [_ Heq]; try done. injection Heq as Heq.
    apply field_split in Heq as [_ Heq]; try done.
  - apply field_split in Heq as [Hm Heq]; try done. injection Heq as Heq.
    apply field_split in Heq as [Hs Heq]; try done. injection Heq as Heq.
    apply Hlast in Heq. lia.
Qed.

Lemma format_seconds_distinguishes_witness :
  Durations.format_ms 3599999 ≠ Durations.format_ms 3600000.
Proof.
  apply (format_seconds_distinguishes
           (λ q, Qnum q) (3599999 # 1) (3600000 # 1)); simpl; lia.
Defined.

(** ** The scan of a directory *)

Lemma scan_files_effect (e : Durations.env) (d : Durations.dir_env)
    (files : list Merge.path) (total : Durations.float)
    (out : list Durations.line) :
  ∃ lines,
    foldl (Durations.scan_file e d) (total, out) files
    = (foldl (Durations.fadd d) total
         (omap (λ f, match Durations.get_mp3_duration_seconds e
                             (Merge.path_str f) with
                     | Ok (dur, _) => Some dur
                     | Raise _ => None
                     end) files),
       out ++ lines)
    ∧ Forall2 (λ f l,
        match Durations.get_mp3_duration_seconds e (Merge.path_str f) with
        | Ok (dur, source) =>
            match Durations.format_float d (Durations.Fin dur) with
            | Ok shown =>
                l = Durations.LDuration (Merge.name f) shown
                      (Durations.extra source)
            | Raise x => l = Durations.LError (Merge.name f) x
            end
        | Raise x => l = Durations.LError (Merge.name f) x
        end) files lines.
Proof.
  revert total out. induction files as [|f files IH]; intros total out.
  - exists []. simpl. by rewrite app_nil_r.
  - cbn [foldl omap list_omap]. unfold Durations.scan_file at 2.
    destruct (Durations.get_mp3_duration_seconds e (Merge.path_str f))
      as [[dur source]|x] eqn:Hget; cbn [fst snd].
    + destruct (Durations.format_float d (Durations.Fin dur))
        as [shown|x] eqn:Hfmt;
        (edestruct IH as (lines & -> & Hlines); eexists (_ :: lines);
         split; [by rewrite <- app_assoc|]; constructor; [|done];
         by rewrite Hget, Hfmt).
    + edestruct IH as (lines & -> & Hlines). eexists (_ :: lines).
      split; [by rewrite <- app_assoc|]. constructor; [|done].
      by rewrite Hget.
Qed.

(** X19. The scan of an existing directory with matching files prints one
    line for each file, in the order of the paths: the duration, or an
    error when the measurement raises or when the duration cannot be
    printed. No such error stops the scan or escapes. The total is the sum,
    in that order, of every duration that was measured, also of one that
    could not be printed; a measurement that raised adds nothing. [main]
    itself raises exactly when the total cannot be printed, after the lines
    of the files; otherwise it prints the total, and the hint exactly when
    the total is at most half a millisecond. *)
Theorem scan_reports_every_file (e : Durations.env) (d : Durations.dir_env)
    (directory : Merge.path) (pattern : string) :
  Durations.is_dir d directory = true →
  let files := Py.sorted Merge.path_leb (Durations.glob d directory pattern) in
  files ≠ [] →
  let r := Durations.main e d directory pattern in
  let measured :=
    omap (λ f, match Durations.get_mp3_duration_seconds e
                       (Merge.path_str f) with
               | Ok (dur, _) => Some dur
               | Raise _ => None
               end) files in
  let total := foldl (Durations.fadd d) (Durations.Fin 0) measured in
  ∃ lines rest,
    r.2 = Durations.LScanning (length files) directory pattern
          :: lines ++ Durations.LTotalHeader :: rest
    ∧ Forall2 (λ f l,
        match Durations.get_mp3_duration_seconds e (Merge.path_str f) with
        | Ok (dur, source) =>
            match Durations.format_float d (Durations.Fin dur) with
            | Ok shown =>
                l = Durations.LDuration (Merge.name f) shown
                      (Durations.extra source)
            | Raise x => l = Durations.LError (Merge.name f) x
            end
        | Raise x => l = Durations.LError (Merge.name f) x
        end) files lines
    ∧ match Durations.format_float d total with
      | Ok shown =>
          r.1 = Ok 0
          ∧ rest = Durations.LTotal shown total
                   :: if Durations.le_threshold total then [Durations.LHint]
                      else []
      | Raise x => r.1 = Raise x ∧ rest = []
      end.
Proof.
  intros Hdir files Hfiles r measured total. subst r.
  unfold Durations.main. rewrite Hdir. cbn [negb]. fold files.
  destruct files as [|f files'] eqn:Hf; [done|].
  destruct (scan_files_effect e d (f :: files') (Durations.Fin 0)
              [Durations.LScanning (length (f :: files')) directory pattern])
    as (lines & -> & Hlines).
  fold measured. fold total.
  exists lines.
  destruct (Durations.format_float d total) as [shown|x].
  - eexists. split; [|split; [exact Hlines|split; reflexivity]].
    simpl. by rewrite <- !app_assoc.
  - exists []. by split; [|split; [exact Hlines|]].
Qed.

Lemma scan_reports_every_file_witness :
  let e := Durations.Env true
             (λ p, if decide (p = "output/slide_01.mp3")
                   then Some (Some (3 # 2)) else Some None)
             (Some "/usr/bin/ffprobe")
             (λ _, Durations.ProbeEmpty) (λ _, Durations.ProbeEmpty) in
  let d := Durations.DirEnv (λ _, true)
             (λ dir _, [dir ++ ["slide_02.mp3"]; dir ++ ["slide_01.mp3"]])
             (λ t q, match t with
                     | Durations.Fin a => Durations.Fin (a + q)
                     | _ => t
                     end)
             (λ q, Durations.Fin (q * 1000))
             (λ x, Qnum x / Z.pos (Qden x)) in
  (Durations.main e d ["output"] "*.mp3").1 = Ok 0.
Proof.
  intros e d.
  destruct (scan_reports_every_file e d ["output"] "*.mp3" eq_refl
              ltac:(discriminate)) as (lines & rest & _ & _ & Hr).
  simpl in Hr. exact (proj1 Hr).
Defined.
